(** * Secret Agent Words: the game-state engine of the socket server

    Shallow embedding of the two server variants found in the repository:
    - [Persisted]: the Redis-backed server (the server half of
      [public/js/fetchers.js]), whose handlers read and write the store
      through [db.*] calls;
    - [InMemory]: the in-memory server [src/index.js], which keeps one
      [Game] object per game id.

    The store module [src/redis.js] and the class [src/game.js] are not part
    of the sources; the operations of theirs that the handlers call are
    modelled from the spec, each in a definition whose doc comment says so.

    Handlers are run to completion one at a time (one message, one close
    event); where the order of promise callbacks matters (a [.then]
    callback registered on an already resolved promise runs after the
    current synchronous code), it is modelled by an explicit job queue. *)

From Stdlib Require Import ZArith List String Bool.
From stdpp Require Import base gmap list strings pretty.
Import ListNotations.
Open Scope Z_scope.
Open Scope string_scope.
Open Scope list_scope.

(** ** JavaScript values that the handlers compare with [===] *)

Inductive jsval :=
| JUndef
| JNum (z : Z)
| JStr (s : string).

Definition js_strict_eq (a b : jsval) : bool :=
  match a, b with
  | JUndef, JUndef => true
  | JNum x, JNum y => Z.eqb x y
  | JStr x, JStr y => String.eqb x y
  | _, _ => false
  end.

Definition js_truthy (v : jsval) : bool :=
  match v with
  | JUndef => false
  | JNum z => negb (Z.eqb z 0)
  | JStr s => negb (String.eqb s "")
  end.

(** An optional string field ([undefined] or a string) in a truthiness test. *)
Definition str_truthy (s : option string) : bool :=
  match s with
  | None => false
  | Some s => negb (String.eqb s "")
  end.

(** ** Words, roles and turns (the store layout of the README) *)

Inductive Role := Agent | Bystander | Assassin | Decoy.

Definition Role_eqb (a b : Role) : bool :=
  match a, b with
  | Agent, Agent | Bystander, Bystander | Assassin, Assassin | Decoy, Decoy => true
  | _, _ => false
  end.

(** [game:{gameId}:words]: [word -> {role1},{role2},{revealed1},{revealed2}] *)
Record WordEntry := mkWordEntry {
  role1 : Role;
  role2 : Role;
  revealed1 : bool;
  revealed2 : bool
}.

(** [game:{gameId}:turn] *)
Record Turn := mkTurn {
  clueGiverTeamId : jsval;
  clueWord : string;
  clueNumber : Z;
  guessesLeft : Z
}.

(** [game:{gameId}] together with its team, token, words and turn keys. *)
Record GameRec := mkGameRec {
  words : list (string * WordEntry);
  turn : option Turn;
  turnsLeft : Z;
  agentsLeftTeamOne : Z;
  agentsLeftTeamTwo : Z;
  team_members : list (Z * Z);   (* [game:{id}:team:{t}] as (teamId, playerId) *)
  team_tokens : list (Z * string) (* [game:{id}:tokens:{t}] as (teamId, token) *)
}.

(** ** Live connections

    The properties stored on a [ws] object by the persisted server
    (see the ACTIVE CONNECTIONS comment of the source). *)
Record Conn := mkConn {
  ws_id : nat;
  readyState : Z;
  gameId : option string;
  playerId : option Z;
  teamId : jsval;
  token : option string;
  facebookId : option string;
  facebookImage : option string;
  playerName : option string
}.

(** Outbound events ([type] and [payload] of the JSON sent). *)
Inductive Event :=
| EvTurns (turnsLeft : Z)
| EvClueGiven (playerGivingClue : string) (number : Z) (word : string)
| EvPlayerJoined (count : Z) (playerName : option string)
    (playerId : option Z) (facebookImage : option string) (teamId : jsval)
| EvPlayerLeft (count : Z) (playerName : option string)
    (playerId : option Z) (teamId : jsval)
| EvGuess (word : string) (role : Role) (turnsLeft : Z)
    (agentsLeftTeamOne agentsLeftTeamTwo : Z).

(** What leaves the process: a frame written on a socket ([client.send],
    with the [gameId] that [Object.assign] adds), or a call of the
    notification service ([iosNotificationService.send]). *)
Inductive Out :=
| OutWs (target : nat) (msgGameId : option string) (ev : Event)
| OutPush (tokens : list string) (title body : string).

(** Jobs queued by [.then] on an already resolved promise; a job reads the
    connection's fields when it runs, as the arrow function does. *)
Inductive Job :=
| JobRemovePlayerFromTeam (ws : nat).

Record World := mkWorld {
  w_db : gmap string GameRec;          (* the Redis store, per game id *)
  w_players : gmap Z string;           (* [player:{playerId}]: its name *)
  w_sockets : gmap string (list nat);  (* [sockets]: game id -> Set of ws *)
  w_conns : gmap nat Conn;             (* the ws objects, shared by reference *)
  w_out : list Out;
  w_jobs : list Job
}.

Definition set_db (w : World) d :=
  mkWorld d w.(w_players) w.(w_sockets) w.(w_conns) w.(w_out) w.(w_jobs).
Definition set_sockets (w : World) s :=
  mkWorld w.(w_db) w.(w_players) s w.(w_conns) w.(w_out) w.(w_jobs).
Definition set_conns (w : World) c :=
  mkWorld w.(w_db) w.(w_players) w.(w_sockets) c w.(w_out) w.(w_jobs).
Definition set_out (w : World) o :=
  mkWorld w.(w_db) w.(w_players) w.(w_sockets) w.(w_conns) o w.(w_jobs).
Definition set_jobs (w : World) j :=
  mkWorld w.(w_db) w.(w_players) w.(w_sockets) w.(w_conns) w.(w_out) j.

(** ** The handler monad: state of the process plus a thrown exception *)

Inductive Res (A : Type) :=
| Ok (a : A)
| Thrown (e : string).
Arguments Ok {A} a.
Arguments Thrown {A} e.

Definition M (A : Type) : Type := World -> World * Res A.

Global Instance M_ret : MRet M := fun A a w => (w, Ok a).
Global Instance M_bind : MBind M := fun A B f m w =>
  match m w with
  | (w', Ok a) => f a w'
  | (w', Thrown e) => (w', Thrown e)
  end.

Definition get : M World := fun w => (w, Ok w).
Definition modify (f : World -> World) : M unit := fun w => (f w, Ok tt).
Definition throw {A} (e : string) : M A := fun w => (w, Thrown e).

Definition emit (o : Out) : M unit :=
  modify (fun w => set_out w (w.(w_out) ++ [o])).

Fixpoint forEach {A} (f : A -> M unit) (l : list A) : M unit :=
  match l with
  | [] => mret tt
  | x :: l' => f x ;; forEach f l'
  end.

(** ** [send] and [broadcast] (fetchers.js, NOTIFICATIONS) *)

(** [function send(client, data)] *)
Definition send (client : Conn) (ev : Event) : M unit :=
  if Z.eqb client.(readyState) 1
  then emit (OutWs client.(ws_id) client.(gameId) ev)
  else mret tt.

(** The callback of [sockets[gameId].forEach] in [broadcast]. *)
Definition broadcast_to (g : string) (ev : Event) (id : nat) : M unit :=
  w ← get;
  match w.(w_conns) !! id with
  | Some client =>
      if Z.eqb client.(readyState) 1
      then emit (OutWs id (Some g) ev)
      else mret tt
  | None => mret tt
  end.

(** [function broadcast(gameId, data)] *)
Definition broadcast (g : string) (ev : Event) : M unit :=
  w ← get;
  match w.(w_sockets) !! g with
  | None => mret tt
  | Some ids => forEach (broadcast_to g ev) ids
  end.

(** ** Output-only actions *)

(** [m] only appends frames to the output, each satisfying [P] in the
    registry and connections it ran in, and changes nothing else. *)
Definition only_appends
    (P : gmap string (list nat) -> gmap nat Conn -> Out -> Prop) (m : M unit) : Prop :=
  forall w, exists extra,
    m w = (set_out w (w_out w ++ extra), Ok tt) /\
    Forall (P (w_sockets w) (w_conns w)) extra.

(** The frames a [broadcast] to game [g] may write: to a member of
    [sockets[g]] whose [readyState] is 1. *)
Definition open_member_frame (g : string)
    (socks : gmap string (list nat)) (conns : gmap nat Conn) (o : Out) : Prop :=
  exists id ids ev c,
    o = OutWs id (Some g) ev /\ socks !! g = Some ids /\ In id ids /\
    conns !! id = Some c /\ readyState c = 1.

(** ** Teams and the per-team columns of a word *)

Inductive Team := TeamOne | TeamTwo.

(** The team ids of the store are the numbers 1 and 2. *)
Definition team_of_id (t : jsval) : option Team :=
  match t with
  | JNum 1 => Some TeamOne
  | JNum 2 => Some TeamTwo
  | _ => None
  end.

Definition role_for (T : Team) (e : WordEntry) : Role :=
  match T with TeamOne => role1 e | TeamTwo => role2 e end.

Definition revealed_for (T : Team) (e : WordEntry) : bool :=
  match T with TeamOne => revealed1 e | TeamTwo => revealed2 e end.

Definition set_revealed (T : Team) (e : WordEntry) : WordEntry :=
  match T with
  | TeamOne => mkWordEntry (role1 e) (role2 e) true (revealed2 e)
  | TeamTwo => mkWordEntry (role1 e) (role2 e) (revealed1 e) true
  end.

Fixpoint word_lookup (word : string) (ws : list (string * WordEntry)) : option WordEntry :=
  match ws with
  | [] => None
  | (k, e) :: ws' => if String.eqb k word then Some e else word_lookup word ws'
  end.

Definition word_update (word : string) (e : WordEntry) (ws : list (string * WordEntry)) :=
  map (fun ke => if String.eqb ke.1 word then (ke.1, e) else ke) ws.

(** [agentsLeft] of a team as the spec defines it: the words revealed to
    that team whose role for that team is agent. *)
Definition agents_count (T : Team) (ws : list (string * WordEntry)) : Z :=
  Z.of_nat (length (filter (fun ke =>
    revealed_for T ke.2 && Role_eqb (role_for T ke.2) Agent) ws)).

Definition with_turn (gr : GameRec) t :=
  mkGameRec gr.(words) t gr.(turnsLeft) gr.(agentsLeftTeamOne) gr.(agentsLeftTeamTwo)
    gr.(team_members) gr.(team_tokens).
Definition with_turnsLeft (gr : GameRec) n :=
  mkGameRec gr.(words) gr.(turn) n gr.(agentsLeftTeamOne) gr.(agentsLeftTeamTwo)
    gr.(team_members) gr.(team_tokens).
Definition with_members (gr : GameRec) m :=
  mkGameRec gr.(words) gr.(turn) gr.(turnsLeft) gr.(agentsLeftTeamOne)
    gr.(agentsLeftTeamTwo) m gr.(team_tokens).

(** ** JavaScript template strings *)

Definition js_str (s : option string) : string :=
  match s with Some s => s | None => "undefined" end.

Definition dquote : string := String (Ascii.ascii_of_nat 34) EmptyString.

Definition quoted (s : string) : string := (dquote ++ s ++ dquote)%string.

(** ** Connections and the registry *)

Definition conn (id : nat) : M Conn :=
  w ← get;
  match w.(w_conns) !! id with
  | Some c => mret c
  | None => throw "TypeError: no such connection"
  end.

Definition set_conn (c : Conn) : M unit :=
  modify (fun w => set_conns w (<[ws_id c := c]> w.(w_conns))).

Definition enqueue (j : Job) : M unit :=
  modify (fun w => set_jobs w (w.(w_jobs) ++ [j])).

(** An async function whose promise nobody awaits: its rejection does not
    reach the caller. *)
Definition run_async (m : M unit) : M unit :=
  fun w => let '(w', _) := m w in (w', Ok tt).

(** [broadcast(ws.gameId, ...)]: with no game id, [sockets[ws.gameId]] is
    unset and nothing is sent. *)
Definition broadcast_ws (g : option string) (ev : Event) : M unit :=
  match g with Some g => broadcast g ev | None => mret tt end.

(** [function iOSNotify(gameId, tokens, data)] *)
Definition iOSNotify (g : option string) (tokens : list string) (title body : string) : M unit :=
  match tokens with
  | [] => mret tt
  | _ => emit (OutPush tokens title body)
  end.

(** ** The store ([src/redis.js] is not among the sources) *)

(** Modelled from the spec: the per-game record that every [db.*] call
    keyed by a game id reads (the spec's Game State Store). A call for a
    game id with no record, or with no game id, fails. *)
Definition game_of (g : option string) : M GameRec :=
  w ← get;
  match g with
  | Some g =>
      match w.(w_db) !! g with
      | Some gr => mret gr
      | None => throw "store: no game record"
      end
  | None => throw "store: no game id"
  end.

Definition update_game (g : option string) (f : GameRec -> GameRec) : M unit :=
  gr ← game_of g;
  match g with
  | Some g => modify (fun w => set_db w (<[g := f gr]> w.(w_db)))
  | None => mret tt
  end.

(** Modelled from the spec: [db.getTurnsLeft(gameId)]. *)
Definition db_getTurnsLeft (g : option string) : M Z :=
  gr ← game_of g; mret gr.(turnsLeft).

(** Modelled from the spec: [db.setTurnsLeft(gameId, n)]. *)
Definition db_setTurnsLeft (g : option string) (n : Z) : M unit :=
  update_game g (fun gr => with_turnsLeft gr n).

(** Modelled from the spec ([setTurn] / [clearTurn] of the Game State
    Store, [giveClue] of the Turn State Machine):
    [db.setTurn(gameId, clueGiverTeamId, clueWord, clueNumber, guessesLeft)]
    installs the turn record, its guess budget derived from the clue number
    plus one bonus guess; called without a clue ([db.setTurn(gameId)]) it
    clears the turn record. *)
Definition db_setTurn (g : option string) (team : jsval) (clueW : option string)
    (clueN : option Z) (guesses : option Z) : M unit :=
  update_game g (fun gr => with_turn gr
    (match clueW, clueN with
     | Some w, Some n => Some (mkTurn team w n (n + 1))
     | _, _ => None
     end)).

(** Modelled from the spec: [db.getTurn(gameId)], [null] when Idle. *)
Definition db_getTurn (g : option string) : M (option Turn) :=
  gr ← game_of g; mret gr.(turn).

(** Modelled from the spec: [db.getTokensOnTeam(gameId, teamId)]. *)
Definition db_getTokensOnTeam (g : option string) (t : Z) : M (list string) :=
  gr ← game_of g;
  mret (map snd (filter (fun tk => Z.eqb tk.1 t) gr.(team_tokens))).

(** Modelled from the spec: [db.getAgentsLeft(gameId)]. *)
Definition db_getAgentsLeft (g : option string) : M (Z * Z) :=
  gr ← game_of g; mret (gr.(agentsLeftTeamOne), gr.(agentsLeftTeamTwo)).

(** Modelled from the spec: [db.getPlayer(playerId)], [null] when there is
    no such player. *)
Definition db_getPlayer (p : option Z) : M (option string) :=
  w ← get;
  match p with Some p => mret (w.(w_players) !! p) | None => mret None end.

(** The reply of [db.makeGuess]. *)
Record GuessResult := mkGuessResult {
  gr_word : string;
  gr_role : Role;
  gr_turnsLeft : Z
}.

(** Modelled from the spec ([recordGuess] of the Game State Store and
    [guess] of the Turn State Machine): [db.makeGuess(gameId, teamId, word)].
    No reply (a no-op) for an unknown team or word, or a word already
    revealed for the team; otherwise the word is revealed for that team
    only, its agentsLeft is recomputed, the turn's guess budget goes down by
    one and the turn ends (turnsLeft - 1) when the budget reaches zero or
    the role is not agent. *)
Definition db_makeGuess (g : option string) (t : jsval) (word : string)
    : M (option GuessResult) :=
  gr ← game_of g;
  match team_of_id t with
  | None => mret None
  | Some T =>
      match word_lookup word gr.(words) with
      | None => mret None
      | Some e =>
          if revealed_for T e then mret None else
          let ws' := word_update word (set_revealed T e) gr.(words) in
          let role := role_for T e in
          let '(turn', tl') :=
            match gr.(turn) with
            | None => (None, gr.(turnsLeft))
            | Some tu =>
                let gl := tu.(guessesLeft) - 1 in
                if Z.leb gl 0 || negb (Role_eqb role Agent)
                then (None, gr.(turnsLeft) - 1)
                else (Some (mkTurn tu.(clueGiverTeamId) tu.(clueWord) tu.(clueNumber) gl),
                      gr.(turnsLeft))
            end in
          update_game g (fun gr0 => mkGameRec ws' turn' tl'
            (match T with TeamOne => agents_count TeamOne ws' | TeamTwo => gr0.(agentsLeftTeamOne) end)
            (match T with TeamTwo => agents_count TeamTwo ws' | TeamOne => gr0.(agentsLeftTeamTwo) end)
            gr0.(team_members) gr0.(team_tokens));;
          mret (Some (mkGuessResult word role tl'))
      end
  end.

(** Modelled from the spec: [db.removePlayerFromTeam(gameId, playerId,
    teamId)] removes the membership if there is one; an undefined game,
    player or team names no membership and removes nothing. *)
Definition db_removePlayerFromTeam (g : option string) (p : option Z) (t : jsval) : M unit :=
  match g, p, t with
  | Some g, Some p, JNum t =>
      w ← get;
      match w.(w_db) !! g with
      | Some gr =>
          modify (fun w => set_db w (<[g := with_members gr
            (filter (fun m => negb (Z.eqb m.1 t && Z.eqb m.2 p)) gr.(team_members))]> w.(w_db)))
      | None => mret tt
      end
  | _, _, _ => mret tt
  end.

(** ** Action handlers of the persisted server *)

(** [async function giveClue(ws, clueWord, clueNumber)] *)
Definition giveClue (ws : Conn) (clueWord : string) (clueNumber : Z) : M unit :=
  turnsLeftBefore ← db_getTurnsLeft ws.(gameId);
  db_setTurn ws.(gameId) ws.(teamId) (Some clueWord) (Some clueNumber) (Some clueNumber);;
  turnsLeftAfter ← db_getTurnsLeft ws.(gameId);
  (if Z.eqb turnsLeftBefore turnsLeftAfter then mret tt
   else broadcast_ws ws.(gameId) (EvTurns turnsLeftAfter));;
  let otherTeamId := if js_strict_eq ws.(teamId) (JStr "one") then 2 else 1 in
  tokens ← db_getTokensOnTeam ws.(gameId) otherTeamId;
  iOSNotify ws.(gameId) tokens "A clue has been given in your game"
    (js_str ws.(playerName) ++ " gave the clue " ++ quoted clueWord ++ " - " ++ pretty clueNumber)%string;;
  broadcast_ws ws.(gameId)
    (EvClueGiven (if Z.eqb otherTeamId 1 then "playerOne" else "playerTwo") clueNumber clueWord).

(** [async function endTurn(gameId)] *)
Definition endTurn (g : string) : M unit :=
  tl ← db_getTurnsLeft (Some g);
  db_setTurnsLeft (Some g) (tl - 1);;
  db_setTurn (Some g) JUndef None None None;;
  broadcast g (EvTurns (tl - 1)).

(** [async function makeGuess(ws, word)]; [const { clueWord } = await
    db.getTurn(...)] throws a TypeError when there is no turn record. *)
Definition makeGuess (ws : Conn) (word : string) : M unit :=
  t ← db_getTurn ws.(gameId);
  clueWord ← (match t with
              | Some tu => mret tu.(clueWord)
              | None => throw "TypeError: cannot destructure null"
              end : M string);
  turnsLeft ← db_getTurnsLeft ws.(gameId);
  guess ← db_makeGuess ws.(gameId) ws.(teamId) word;
  match guess with
  | None => mret tt
  | Some gres =>
      al ← db_getAgentsLeft ws.(gameId);
      broadcast_ws ws.(gameId) (EvGuess gres.(gr_word) gres.(gr_role) gres.(gr_turnsLeft) al.1 al.2);;
      let clueText := if String.eqb clueWord "" then ""
                      else (" for the clue " ++ quoted clueWord)%string in
      let otherTeamId := if js_strict_eq ws.(teamId) (JNum 1) then 2 else 1 in
      tokens ← db_getTokensOnTeam ws.(gameId) otherTeamId;
      pl ← db_getPlayer ws.(playerId);
      pname ← (match pl with
               | Some n => mret n
               | None => throw "TypeError: cannot destructure null"
               end : M string);
      iOSNotify ws.(gameId) tokens "A guess has been made in your game"
        (pname ++ " guessed " ++ quoted word ++ clueText)%string;;
      if Z.eqb turnsLeft gres.(gr_turnsLeft) then mret tt
      else broadcast_ws ws.(gameId) (EvTurns gres.(gr_turnsLeft))
  end.

(** [async function handlePlayerLeft(ws)]: it has no [await], so it runs
    to its end at once; the removal is passed to [promise.then] and runs
    as a job, reading [ws]'s fields only when it runs. *)
Definition handlePlayerLeft (id : nat) : M unit :=
  ws ← conn id;
  w ← get;
  size ← (match ws.(gameId) with
          | Some g =>
              match w.(w_sockets) !! g with
              | Some ids => mret (Z.of_nat (length ids))
              | None => throw "TypeError: sockets[ws.gameId] is undefined"
              end
          | None => throw "TypeError: sockets[ws.gameId] is undefined"
          end : M Z);
  (if Z.eqb size 0 then mret tt
   else broadcast_ws ws.(gameId)
          (EvPlayerLeft size ws.(playerName) ws.(playerId) ws.(teamId)));;
  if js_truthy ws.(teamId) && negb (str_truthy ws.(facebookId)) && negb (str_truthy ws.(token))
  then enqueue (JobRemovePlayerFromTeam id)
  else mret tt.

(** The job [() => db.removePlayerFromTeam(ws.gameId, ws.playerId, ws.teamId)]. *)
Definition run_job (j : Job) : M unit :=
  match j with
  | JobRemovePlayerFromTeam id =>
      ws ← conn id;
      db_removePlayerFromTeam ws.(gameId) ws.(playerId) ws.(teamId)
  end.

(** The microtask queue is drained once the current handler returns. *)
Definition run_jobs : M unit :=
  w ← get;
  modify (fun w => set_jobs w []);;
  forEach (fun j => run_async (run_job j)) w.(w_jobs).

(** The fields the close listener resets. *)
Definition clear_conn (c : Conn) : Conn :=
  mkConn c.(ws_id) c.(readyState) None None JUndef None None None None.

(** [ws.on('close', ...)], followed by the jobs it queued. *)
Definition close_listener (id : nat) : M unit :=
  ws ← conn id;
  w ← get;
  match ws.(gameId) with
  | Some g =>
      if negb (str_truthy (Some g)) then mret tt else
      match w.(w_sockets) !! g with
      | None => mret tt
      | Some ids =>
          modify (fun w => set_sockets w (<[g := remove Nat.eq_dec id ids]> w.(w_sockets)));;
          run_async (handlePlayerLeft id);;
          ws' ← conn id;
          set_conn (clear_conn ws')
      end
  | None => mret tt
  end.

Definition on_close (id : nat) : M unit :=
  run_async (close_listener id);; run_jobs.

(** The connection once its socket is CLOSED ([readyState] 3). *)
Definition closed (c : Conn) : Conn :=
  mkConn c.(ws_id) 3 c.(gameId) c.(playerId) c.(teamId) c.(token) c.(facebookId)
    c.(facebookImage) c.(playerName).

(** The [ws] library sets [readyState] to CLOSED before it emits ['close']. *)
Definition mark_closed (id : nat) : M unit :=
  ws ← conn id; set_conn (closed ws).

(** A connection closes: its socket becomes CLOSED, then the ['close']
    listener runs, then the jobs it queued. *)
Definition close_event (id : nat) : M unit :=
  mark_closed id;; on_close id.

(** Team membership in the store. *)
Definition on_team (w : World) (g : string) (t p : Z) : Prop :=
  exists gr, w.(w_db) !! g = Some gr /\ In (t, p) gr.(team_members).

(** The frames [broadcast(g, ev)] writes, as a function of the registry
    and the connections. *)
Definition broadcast_step (conns : gmap nat Conn) (g : string) (ev : Event) (id : nat) :=
  match conns !! id with
  | Some c => if Z.eqb (readyState c) 1 then [OutWs id (Some g) ev] else []
  | None => []
  end.

Definition broadcast_frames (socks : gmap string (list nat)) (conns : gmap nat Conn)
    (g : string) (ev : Event) : list Out :=
  match socks !! g with
  | None => []
  | Some ids => concat (map (broadcast_step conns g ev) ids)
  end.

(** ** A concrete game: the scenario of the spec (section 8)

    Game "ABCD"; connection 0 is Ada (player 7, team 1, token "tokAda"),
    connection 1 is Grace (player 8, team 2, token "tokGrace"). *)

Definition gameABCD : GameRec :=
  mkGameRec
    [("robot", mkWordEntry Agent Bystander false false);
     ("android", mkWordEntry Agent Agent true false);
     ("laser", mkWordEntry Assassin Decoy false false)]
    None 9 1 0 [(1, 7); (2, 8)] [(1, "tokAda"); (2, "tokGrace")].

Definition connAda : Conn :=
  mkConn 0 1 (Some "ABCD") (Some 7) (JNum 1) (Some "tokAda") None None (Some "Ada").

Definition connGrace : Conn :=
  mkConn 1 1 (Some "ABCD") (Some 8) (JNum 2) (Some "tokGrace") None None (Some "Grace").

Definition worldABCD (db : GameRec) (ada grace : Conn) : World :=
  mkWorld (<["ABCD" := db]> ∅) (<[7 := "Ada"]> (<[8 := "Grace"]> ∅))
    (<["ABCD" := [0%nat; 1%nat]]> ∅)
    (<[0%nat := ada]> (<[1%nat := grace]> ∅)) [] [].

(** Game "ABCD" during a turn: Grace's team (2) has given the clue "robot"
    for 2, with a budget of 3 guesses. *)
Definition gameABCDClue : GameRec :=
  with_turn gameABCD (Some (mkTurn (JNum 2) "robot" 2 3)).

(** Ada with no durable anchor: no token and no account id. *)
Definition connAdaNoAnchor : Conn :=
  mkConn 0 1 (Some "ABCD") (Some 7) (JNum 1) None None None (Some "Ada").

(** ** Inbound messages and the message listener *)

(** The payload fields the handlers read. *)
Record Payload := mkPayload {
  p_teamId : jsval;
  p_playerName : option string;
  p_facebookId : option string;
  p_facebookImage : option string;
  p_word : option string;
  p_number : option Z;
  p_token : option string
}.

Definition empty_payload : Payload := mkPayload JUndef None None None None None None.

(** A parsed message [{ gameId, type, payload }]. *)
Record InMsg := mkInMsg {
  in_gameId : option string;
  in_type : string;
  in_payload : option Payload
}.

(** The actions leave the registry [sockets] as it is. *)
Definition keeps_sockets {A} (m : M A) : Prop :=
  forall w, w_sockets (fst (m w)) = w_sockets w.

Definition opt_str_eqb (a b : option string) : bool :=
  match a, b with
  | Some x, Some y => String.eqb x y
  | None, None => true
  | _, _ => false
  end.

(** Modelled from the spec: [db.getGame(gameId)], the stored game data,
    [null] when there is none. *)
Definition db_getGame (g : string) : M (option GameRec) :=
  w ← get; mret (w.(w_db) !! g).

(** Modelled from the spec: [db.setGame(gameId, game)] stores the game. *)
Definition db_setGame (g : string) (game : GameRec) : M unit :=
  modify (fun w => set_db w (<[g := game]> w.(w_db))).

(** [async function getOrCreateGame(gameId)]; [fresh] is [new Game(gameData)]
    for no data. The game it resolves with is not used by its caller
    ([.then(resolve)] of [handleInitialRequest]). *)
Definition getOrCreateGame (fresh : GameRec) (g : string) : M unit :=
  gameData ← db_getGame g;
  match gameData with
  | Some _ => mret tt
  | None => db_setGame g fresh
  end.

(** One step of the roster replay: [send(ws, playerJoined)] for an open
    [client] of the set. *)
Definition replay_one (ws : Conn) (count : Z) (cid : nat) : M unit :=
  w ← get;
  match w.(w_conns) !! cid with
  | Some client =>
      if Z.eqb client.(readyState) 1
      then send ws (EvPlayerJoined count client.(playerName) client.(playerId)
                      client.(facebookImage) client.(teamId))
      else mret tt
  | None => mret tt
  end.

Section Dispatch.

(** [new Game()]: a fresh board. *)
Variable newGame : GameRec.

(** [handlePlayerChanged(ws, playerName, facebookId, facebookImage, token)],
    not modelled here. *)
Variable handlePlayerChanged : nat -> Payload -> M unit.

(** The actions of [handleRequest] not modelled here ([words],
    [changePlayer], [changeTeam], [startNewGame], a [giveClue] without a
    word or number, and the types that fall to [default]). *)
Variable otherAction : nat -> InMsg -> M unit.

(** [handleInitialRequest], up to the resolution of its [new Promise]:
    the connection joins the live set of [gameId]. *)
Definition join_registry (id : nat) (g : string) : M unit :=
  ws ← conn id;
  (if negb (str_truthy ws.(gameId))
   then set_conn (mkConn ws.(ws_id) ws.(readyState) (Some g) ws.(playerId) ws.(teamId)
                   ws.(token) ws.(facebookId) ws.(facebookImage) ws.(playerName))
   else mret tt);;
  w ← get;
  match w.(w_sockets) !! g with
  | None =>
      modify (fun w => set_sockets w (<[g := [id]]> w.(w_sockets)));;
      getOrCreateGame newGame g
  | Some ids =>
      if bool_decide (id ∈ ids) then mret tt else
      ws1 ← conn id;
      forEach (replay_one ws1 (Z.of_nat (length ids))) ids;;
      modify (fun w => set_sockets w (<[g := ids ++ [id]]> w.(w_sockets)))
  end.

(** The [.then] of [handleInitialRequest]: the implicit player change.
    Destructuring an undefined [payload] throws a TypeError. *)
Definition implicit_change (id : nat) (msg : InMsg) : M unit :=
  match msg.(in_payload) with
  | None => throw "TypeError: cannot destructure undefined"
  | Some p =>
      ws ← conn id;
      let hasNewToken := str_truthy p.(p_token) && negb (opt_str_eqb p.(p_token) ws.(token)) in
      let hasNewFacebookId :=
        str_truthy p.(p_facebookId) && negb (opt_str_eqb p.(p_facebookId) ws.(facebookId)) in
      let hasNewPlayerName :=
        str_truthy p.(p_playerName) && negb (opt_str_eqb p.(p_playerName) ws.(playerName)) in
      if negb (String.eqb msg.(in_type) "changePlayer")
         && (hasNewToken || hasNewFacebookId || hasNewPlayerName)
      then handlePlayerChanged id p
      else mret tt
  end.

(** [async function handleInitialRequest(ws, data)] *)
Definition handleInitialRequest (id : nat) (msg : InMsg) : M unit :=
  match msg.(in_gameId) with
  | Some g =>
      if str_truthy (Some g) then join_registry id g;; implicit_change id msg
      else mret tt
  | None => mret tt
  end.

(** [async function handleRequest(ws, data)]; the handlers it starts are
    not awaited. *)
Definition handleRequest (id : nat) (msg : InMsg) : M unit :=
  match msg.(in_gameId) with
  | Some g =>
      if negb (str_truthy (Some g)) then mret tt else
      let p := match msg.(in_payload) with Some p => p | None => empty_payload end in
      if String.eqb msg.(in_type) "guess" then
        run_async (ws ← conn id; makeGuess ws (js_str p.(p_word)))
      else if String.eqb msg.(in_type) "giveClue" then
        match p.(p_word), p.(p_number) with
        | Some wd, Some n => run_async (ws ← conn id; giveClue ws wd n)
        | _, _ => run_async (otherAction id msg)
        end
      else if String.eqb msg.(in_type) "endTurn" then run_async (endTurn g)
      else run_async (otherAction id msg)
  | None => mret tt
  end.

(** [handleInitialRequest(ws, parsedData).then(() => handleRequest(ws, parsedData))] *)
Definition on_message (id : nat) (msg : InMsg) : M unit :=
  run_async (handleInitialRequest id msg;; handleRequest id msg).

(** How a call of the ['message'] listener ends: it returns, or an
    exception escapes it. *)
Inductive ListenerEnd :=
| ListenerReturned
| ListenerThrew (e : string).

(** [ws.on('message', (data) => { const parsedData = JSON.parse(data); ... })],
    for the [JSON.parse] given: a [SyntaxError] of [JSON.parse] is not
    caught. *)
Definition message_listener (JSON_parse : string -> Res InMsg) (id : nat) (data : string)
    (w : World) : World * ListenerEnd :=
  match JSON_parse data with
  | Thrown e => (w, ListenerThrew e)
  | Ok msg => (fst (on_message id msg w), ListenerReturned)
  end.

End Dispatch.

(** The connection after [if (!ws.gameId) ws.gameId = gameId]. *)
Definition with_gameId_if_unset (ws : Conn) (g : string) : Conn :=
  if negb (str_truthy ws.(gameId))
  then mkConn ws.(ws_id) ws.(readyState) (Some g) ws.(playerId) ws.(teamId)
         ws.(token) ws.(facebookId) ws.(facebookImage) ws.(playerName)
  else ws.

(** The frames of the roster replay to [ws]: one playerJoined per open
    connection of the set, written if [ws] itself is open. *)
Definition replay_frames (ws : Conn) (count : Z) (conns : gmap nat Conn) (ids : list nat)
    : list Out :=
  concat (map (fun cid =>
    match conns !! cid with
    | Some client =>
        if Z.eqb client.(readyState) 1 then
          if Z.eqb ws.(readyState) 1
          then [OutWs ws.(ws_id) ws.(gameId)
                  (EvPlayerJoined count client.(playerName) client.(playerId)
                     client.(facebookImage) client.(teamId))]
          else []
        else []
    | None => []
    end) ids).

(** A new connection (id 2) that has not sent anything yet, and its first
    message [{ gameId: "ABCD", type: "words", payload: {} }]. *)
Definition connNew : Conn := mkConn 2 1 None None JUndef None None None None.

Definition msgWords : InMsg := mkInMsg (Some "ABCD") "words" (Some empty_payload).

Definition worldABCD_new : World :=
  set_conns (worldABCD gameABCD connAda connGrace)
    (<[2%nat := connNew]> (w_conns (worldABCD gameABCD connAda connGrace))).

(** ** The in-memory server ([src/index.js])

    It keeps one [Game] object per game id, with the two player slots
    ['one'] and ['two']. *)

Module InMemory.

(** Modelled from the spec ([src/game.js] is not among the sources): a
    game holds the word table, the turn record and turnsLeft, and for each
    of the two player slots a name and a device token. *)
Record Game := mkGame {
  g_words : list (string * WordEntry);
  g_turn : option Turn;
  g_turnsLeft : Z;
  playerOneName : option string;
  playerTwoName : option string;
  playerOneToken : option string;
  playerTwoToken : option string
}.

(** Modelled from the spec: [game.getPlayerName(player)]. *)
Definition getPlayerName (game : Game) (player : Team) : option string :=
  match player with TeamOne => playerOneName game | TeamTwo => playerTwoName game end.

(** Modelled from the spec: [game.getTokenForPlayer(player)]. *)
Definition getTokenForPlayer (game : Game) (player : Team) : option string :=
  match player with TeamOne => playerOneToken game | TeamTwo => playerTwoToken game end.

(** Modelled from the spec ([addToTeam]):
    [game.setPlayerName(name, player, token)] puts the player in the slot and
    associates its token. *)
Definition setPlayerName (game : Game) (name : option string) (player : Team)
    (tok : option string) : Game :=
  match player with
  | TeamOne => mkGame (g_words game) (g_turn game) (g_turnsLeft game)
                 name (playerTwoName game) tok (playerTwoToken game)
  | TeamTwo => mkGame (g_words game) (g_turn game) (g_turnsLeft game)
                 (playerOneName game) name (playerOneToken game) tok
  end.

(** [function getOrCreateGame(hash)]; [created] is the [new Game()]. *)
Definition getOrCreateGame (created : Game) (games : gmap string Game) (g : string)
    : gmap string Game * Game :=
  match games !! g with
  | Some game => (games, game)
  | None => (<[g := created]> games, created)
  end.

(** [function handleStartNewGame(gameId)] on [games]; [fresh] is the
    [new Game()] that replaces the game. (The whole-state frames it then
    sends are not modelled here.) A [&&] whose left side is falsy yields
    that falsy value, which is never used as a token: it is [None] here. *)
Definition handleStartNewGame (created fresh : Game) (games : gmap string Game) (g : string)
    : gmap string Game :=
  let '(games, game) := getOrCreateGame created games g in
  let playerOneName := getPlayerName game TeamOne in
  let playerTwoName := getPlayerName game TeamTwo in
  let playerOneToken :=
    if str_truthy playerOneName then getTokenForPlayer game TeamOne else None in
  let playerTwoToken :=
    if str_truthy playerTwoName then getTokenForPlayer game TeamOne else None in
  let games := <[g := fresh]> games in
  let games :=
    if str_truthy playerOneName
    then <[g := setPlayerName fresh playerOneName TeamOne playerOneToken]> games
    else games in
  let cur := match games !! g with Some x => x | None => fresh end in
  if str_truthy playerTwoToken
  then <[g := setPlayerName cur playerTwoName TeamTwo playerTwoToken]> games
  else games.

(** The game of the spec's scenario: Ada in slot one, Grace in slot two. *)
Definition gameAdaGrace (tokA tokG : option string) : Game :=
  mkGame (words gameABCD) None 9 (Some "Ada") (Some "Grace") tokA tokG.

(** A fresh board for the replacement. *)
Definition freshGame : Game :=
  mkGame [("moon", mkWordEntry Agent Agent false false)] None 9 None None None None.

End InMemory.

(** ** Replaying the current clue ([public/js/fetchers.js]) *)

(** [async function maybeSendCurrentClue(ws)]: [await db.getTurn(ws.gameId)
    || {}] gives no [clueWord] when there is no turn record. *)
Definition maybeSendCurrentClue (ws : Conn) : M unit :=
  t ← db_getTurn ws.(gameId);
  match t with
  | None => mret tt
  | Some tu =>
      if negb (str_truthy (Some tu.(clueWord))) then mret tt else
      send ws (EvClueGiven
                 (if js_strict_eq tu.(clueGiverTeamId) (JNum 1) then "playerOne" else "playerTwo")
                 tu.(guessesLeft) tu.(clueWord))
  end.

(** ** The client's fetchers ([public/js/fetchers.js], lines 1-38)

    Each fetcher hands a message object to [send] of [utils/ws] (not among
    the sources), which writes it on the socket as JSON for the server to
    parse back. A fetcher is modelled by the message the server parses:
    [JSON.stringify] drops the properties whose value is [undefined], and a
    fetcher that builds no [payload] sends none. The payload property
    [player] is not read by the persisted server and is left out. *)

(** [export function guess({ gameId, word, player } = {})] *)
Definition fetch_guess (g word : option string) : InMsg :=
  mkInMsg g "guess" (Some (mkPayload JUndef None None None word None None)).

(** [export function endTurn({ gameId } = {})] *)
Definition fetch_endTurn (g : option string) : InMsg :=
  mkInMsg g "endTurn" None.

(** [export function giveClue({ gameId, player, word, number } = {})] *)
Definition fetch_giveClue (g word : option string) (number : option Z) : InMsg :=
  mkInMsg g "giveClue" (Some (mkPayload JUndef None None None word number None)).

(** Ada's connection, bound to game "ABCD", and the set of a second game
    "WXYZ" that Grace's connection is in. *)
Definition worldTwoGames : World :=
  set_sockets (worldABCD gameABCD connAda connGrace)
    (<["WXYZ" := [1%nat]]> (w_sockets (worldABCD gameABCD connAda connGrace))).

(** ** Keeping connections alive (both servers: the [setInterval] callback
    and the [pong] listener) *)

(** A member of [wss.clients] and its [isAlive] flag. *)
Record WsClient := mkWsClient {
  cl_id : nat;
  isAlive : bool
}.

(** What the interval callback does to a client. *)
Inductive Beat :=
| Terminate (id : nat)
| Ping (id : nat).

(** [wss.on('connection', (ws) => { ws.isAlive = true; ... })]: the ws
    server adds the client to [wss.clients], a Set, after the handshake. *)
Definition on_connection (cs : list WsClient) (id : nat) : list WsClient :=
  cs ++ [mkWsClient id true].

(** [ws.on('pong', () => { ws.isAlive = true; })] *)
Definition on_pong (cs : list WsClient) (id : nat) : list WsClient :=
  map (fun c => if Nat.eqb (cl_id c) id then mkWsClient (cl_id c) true else c) cs.

(** The callback of [setInterval(() => { wss.clients.forEach(...) }, 30000)]:
    a client whose [isAlive] is [false] is terminated; any other has
    [isAlive] set to [false] and is pinged. A terminated socket closes,
    which removes it from [wss.clients], long before the next run thirty
    seconds later: the first component is the set the next run sees. *)
Fixpoint heartbeat (cs : list WsClient) : list WsClient * list Beat :=
  match cs with
  | [] => ([], [])
  | c :: cs' =>
      let '(rest, beats) := heartbeat cs' in
      if isAlive c
      then (mkWsClient (cl_id c) false :: rest, Ping (cl_id c) :: beats)
      else (rest, Terminate (cl_id c) :: beats)
  end.

(** [n] runs of the interval callback, the client [id] answering each
    ping before the next run; the beats of each run, in order. *)
Fixpoint runs_answering (id : nat) (n : nat) (cs : list WsClient) : list (list Beat) :=
  match n with
  | O => []
  | S n' =>
      let '(cs', beats) := heartbeat cs in
      beats :: runs_answering id n' (on_pong cs' id)
  end.

(** ** The client's game reducer ([unnamed/part_000], made with redux-act)

    JavaScript values as the reducer handles them. An object is the list of
    its property writes in order; reading a property gives the value
    written last ([undefined] if none), so writing a key again overwrites
    it, as in an object literal. *)
Set Warnings "-register-all".
Inductive jv :=
| JvUndef
| JvNull
| JvBool (b : bool)
| JvNum (z : Z)
| JvStr (s : string)
| JvObj (props : list (string * jv)).

Definition jv_truthy (v : jv) : bool :=
  match v with
  | JvUndef | JvNull => false
  | JvBool b => b
  | JvNum z => negb (Z.eqb z 0)
  | JvStr s => negb (String.eqb s "")
  | JvObj _ => true
  end.

(** [===]; it compares objects by reference, and two object values are
    taken to be two distinct objects here. *)
Definition jv_strict_eq (a b : jv) : bool :=
  match a, b with
  | JvUndef, JvUndef | JvNull, JvNull => true
  | JvBool x, JvBool y => Bool.eqb x y
  | JvNum x, JvNum y => Z.eqb x y
  | JvStr x, JvStr y => String.eqb x y
  | _, _ => false
  end.

Definition props_get (k : string) (ps : list (string * jv)) : jv :=
  fold_left (fun acc kv => if String.eqb kv.1 k then kv.2 else acc) ps JvUndef.

(** [v.k] (and the destructuring [const { k } = v]): it throws on
    [undefined] and [null]; no primitive has a property the reducer reads
    ([gameId], [words], [word], [roleRevealedForClueGiver]). *)
Definition jv_get (v : jv) (k : string) : Res jv :=
  match v with
  | JvUndef | JvNull => Thrown "TypeError: cannot read property of undefined or null"
  | JvObj ps => Ok (props_get k ps)
  | _ => Ok JvUndef
  end.

Fixpoint string_index_props (i : N) (s : string) : list (string * jv) :=
  match s with
  | EmptyString => []
  | String c s' => (pretty i, JvStr (String c EmptyString)) :: string_index_props (i + 1)%N s'
  end.

(** The properties [...v] copies into an object literal: an object's own
    properties, a string's characters by index, nothing for the others. *)
Definition spread (v : jv) : list (string * jv) :=
  match v with
  | JvObj ps => ps
  | JvStr s => string_index_props 0 s
  | _ => []
  end.

(** The key of a computed property [[v]]. *)
Definition to_property_key (v : jv) : string :=
  match v with
  | JvUndef => "undefined"
  | JvNull => "null"
  | JvBool true => "true"
  | JvBool false => "false"
  | JvNum z => pretty z
  | JvStr s => s
  | JvObj _ => "[object Object]"
  end.

Definition res_bind {A B} (r : Res A) (f : A -> Res B) : Res B :=
  match r with Ok a => f a | Thrown e => Thrown e end.

(** The actions the reducer handles ([createAction]), with their payload. *)
Inductive GameAction :=
| AddOrReplaceGame (game : jv)
| UpdateWordInGame (payload : jv)
| OtherAction.

(** [[addOrReplaceGame]: (state, game) => { if (!game) return state; return game; }] *)
Definition addOrReplaceGame_handler (state game : jv) : Res jv :=
  if negb (jv_truthy game) then Ok state else Ok game.

(** [[updateWordInGame]: (state, { gameId, word, roleRevealedForClueGiver }) => ...] *)
Definition updateWordInGame_handler (state payload : jv) : Res jv :=
  res_bind (jv_get payload "gameId") (fun gameId =>
  res_bind (jv_get payload "word") (fun word =>
  res_bind (jv_get payload "roleRevealedForClueGiver") (fun roleRevealedForClueGiver =>
  res_bind (jv_get state "gameId") (fun stateGameId =>
  if negb (jv_strict_eq gameId stateGameId) then Ok state else
  res_bind (jv_get state "words") (fun stateWords =>
  Ok (JvObj (spread state ++
    [("words", JvObj (spread stateWords ++
       [(to_property_key word,
         JvObj [("roleRevealedForClueGiver", roleRevealedForClueGiver)])]))]))))))).

(** [createReducer({ ... }, {})]: the state defaults to [{}]; an action with
    no handler leaves the state as it is. *)
Definition gameReducer (state : jv) (a : GameAction) : Res jv :=
  let state := match state with JvUndef => JvObj [] | s => s end in
  match a with
  | AddOrReplaceGame game => addOrReplaceGame_handler state game
  | UpdateWordInGame p => updateWordInGame_handler state p
  | OtherAction => Ok state
  end.

(** A game state on the client, and a reveal for one of its words. *)
Definition clientGame : jv :=
  JvObj [("gameId", JvStr "ABCD");
         ("words", JvObj [("robot", JvObj [("role", JvStr "agent")]);
                          ("laser", JvObj [("role", JvStr "assassin")])]);
         ("turnsLeft", JvNum 9)].

Definition revealRobot (g : string) : jv :=
  JvObj [("gameId", JvStr g); ("word", JvStr "robot");
         ("roleRevealedForClueGiver", JvStr "agent")].


(** * Properties *)

(** Unfold the handler monad. *)
Ltac unfold_M :=
  unfold mbind, M_bind, mret, M_ret, get, modify, emit, throw in *; cbn in *.


Lemma set_out_set_out (w : World) o1 o2 : set_out (set_out w o1) o2 = set_out w o2.
Proof. by destruct w. Qed.

Lemma forEach_only_appends {A} P (f : A -> M unit) (l : list A) :
  (forall x, In x l -> only_appends P (f x)) ->
  only_appends P (forEach f l).
Proof.
  induction l as [|x l IH]; intros Hf w; cbn.
  - exists []. rewrite app_nil_r. by destruct w.
  - destruct (Hf x (or_introl eq_refl) w) as [e1 [H1 P1]].
    unfold_M. rewrite H1.
    destruct (IH (fun y Hy => Hf y (or_intror Hy)) (set_out w (w_out w ++ e1)))
      as [e2 [H2 P2]].
    exists (e1 ++ e2). split.
    + cbn in H2. rewrite H2, set_out_set_out. cbn. by rewrite app_assoc.
    + apply Forall_app. split; [done|]. destruct w; exact P2.
Qed.

Lemma broadcast_to_only_appends (g : string) (ev : Event) (ids : list nat) (id : nat) :
  In id ids ->
  only_appends (fun _ conns o => exists id' e c,
    o = OutWs id' (Some g) e /\ In id' ids /\ conns !! id' = Some c /\ readyState c = 1)
    (broadcast_to g ev id).
Proof.
  intros Hin w. unfold broadcast_to. unfold_M.
  destruct (w_conns w !! id) as [c|] eqn:Hc.
  - destruct (Z.eqb (readyState c) 1) eqn:Hr.
    + apply Z.eqb_eq in Hr.
      exists [OutWs id (Some g) ev]. split; [done|].
      constructor; [|constructor]. by exists id, ev, c.
    + exists []. rewrite app_nil_r. split; [by destruct w | constructor].
  - exists []. rewrite app_nil_r. split; [by destruct w | constructor].
Qed.

Lemma broadcast_only_appends (g : string) (ev : Event) :
  only_appends (open_member_frame g) (broadcast g ev).
Proof.
  intros w. unfold broadcast. unfold_M.
  destruct (w_sockets w !! g) as [ids|] eqn:Hs.
  - destruct (forEach_only_appends _ (broadcast_to g ev) ids
      (fun id Hin => broadcast_to_only_appends g ev ids id Hin) w) as [extra [He Hp]].
    exists extra. split; [done|].
    eapply Forall_impl; [exact Hp|]. intros o (id & e & c & ? & Hin & Hc & Hr).
    exists id, ids, e, c. destruct w; done.
  - exists []. rewrite app_nil_r. split; [by destruct w | constructor].
Qed.

Lemma send_only_appends (c : Conn) (ev : Event) :
  only_appends (fun _ _ o => exists gid e, o = OutWs (ws_id c) gid e /\ readyState c = 1)
    (send c ev).
Proof.
  intros w. unfold send.
  destruct (Z.eqb (readyState c) 1) eqn:Hr.
  - apply Z.eqb_eq in Hr. exists [OutWs (ws_id c) (gameId c) ev].
    unfold_M. split; [done|]. constructor; [|constructor]. eauto.
  - exists []. unfold_M. rewrite app_nil_r. split; [by destruct w | constructor].
Qed.

Lemma bind_ok {A B} (m : M A) (f : A -> M B) w w' a :
  m w = (w', Ok a) -> (m ≫= f) w = f a w'.
Proof. intros H. unfold mbind, M_bind. by rewrite H. Qed.

Lemma bind_thrown {A B} (m : M A) (f : A -> M B) w w' e :
  m w = (w', Thrown e) -> (m ≫= f) w = (w', Thrown e).
Proof. intros H. unfold mbind, M_bind. by rewrite H. Qed.

Lemma set_out_id (w : World) : set_out w (w_out w) = w.
Proof. by destruct w. Qed.

Lemma w_db_set_out (w : World) o : w_db (set_out w o) = w_db w.
Proof. by destruct w. Qed.
Lemma w_sockets_set_out (w : World) o : w_sockets (set_out w o) = w_sockets w.
Proof. by destruct w. Qed.
Lemma w_conns_set_out (w : World) o : w_conns (set_out w o) = w_conns w.
Proof. by destruct w. Qed.
Lemma w_out_set_out (w : World) o : w_out (set_out w o) = o.
Proof. by destruct w. Qed.
Lemma w_db_set_db (w : World) d : w_db (set_db w d) = d.
Proof. by destruct w. Qed.
Lemma w_sockets_set_db (w : World) d : w_sockets (set_db w d) = w_sockets w.
Proof. by destruct w. Qed.
Lemma w_conns_set_db (w : World) d : w_conns (set_db w d) = w_conns w.
Proof. by destruct w. Qed.
Lemma w_out_set_db (w : World) d : w_out (set_db w d) = w_out w.
Proof. by destruct w. Qed.
Lemma set_db_set_db (w : World) d1 d2 : set_db (set_db w d1) d2 = set_db w d2.
Proof. by destruct w. Qed.

Lemma w_sockets_set_conns (w : World) c : w_sockets (set_conns w c) = w_sockets w.
Proof. by destruct w. Qed.
Lemma w_conns_set_conns (w : World) c : w_conns (set_conns w c) = c.
Proof. by destruct w. Qed.
Lemma w_out_set_conns (w : World) c : w_out (set_conns w c) = w_out w.
Proof. by destruct w. Qed.
Lemma w_sockets_set_sockets (w : World) x : w_sockets (set_sockets w x) = x.
Proof. by destruct w. Qed.
Lemma w_conns_set_sockets (w : World) x : w_conns (set_sockets w x) = w_conns w.
Proof. by destruct w. Qed.
Lemma w_out_set_sockets (w : World) x : w_out (set_sockets w x) = w_out w.
Proof. by destruct w. Qed.
Lemma w_sockets_set_jobs (w : World) x : w_sockets (set_jobs w x) = w_sockets w.
Proof. by destruct w. Qed.

Create Rewrite HintDb world_fields.
Hint Rewrite w_db_set_out w_sockets_set_out w_conns_set_out w_out_set_out
  w_db_set_db w_sockets_set_db w_conns_set_db w_out_set_db set_db_set_db
  set_out_set_out w_sockets_set_conns w_conns_set_conns w_out_set_conns
  w_sockets_set_sockets w_conns_set_sockets w_out_set_sockets w_sockets_set_jobs
  : world_fields.

Lemma broadcast_to_spec (g : string) (ev : Event) (id : nat) (w : World) :
  broadcast_to g ev id w =
  (set_out w (w_out w ++ broadcast_step (w_conns w) g ev id), Ok tt).
Proof.
  unfold broadcast_to, broadcast_step. unfold_M.
  destruct (w_conns w !! id) as [c|]; [destruct (Z.eqb (readyState c) 1)|];
    try done; by rewrite app_nil_r, set_out_id.
Qed.

Lemma forEach_broadcast_to (g : string) (ev : Event) (ids : list nat) (w : World) :
  forEach (broadcast_to g ev) ids w =
  (set_out w (w_out w ++ concat (map (broadcast_step (w_conns w) g ev) ids)), Ok tt).
Proof.
  revert w. induction ids as [|id ids IH]; intros w; cbn [forEach].
  - cbn. by rewrite app_nil_r, set_out_id.
  - erewrite bind_ok; [|apply broadcast_to_spec]. rewrite IH.
    autorewrite with world_fields. cbn. by rewrite app_assoc.
Qed.

Lemma broadcast_spec (g : string) (ev : Event) (w : World) :
  broadcast g ev w =
  (set_out w (w_out w ++ broadcast_frames (w_sockets w) (w_conns w) g ev), Ok tt).
Proof.
  unfold broadcast, broadcast_frames. unfold_M.
  destruct (w_sockets w !! g) as [ids|].
  - apply forEach_broadcast_to.
  - by rewrite app_nil_r, set_out_id.
Qed.

Lemma game_of_ok (g : string) (w : World) (gr : GameRec) :
  w_db w !! g = Some gr -> game_of (Some g) w = (w, Ok gr).
Proof. intros H. unfold game_of. unfold_M. by rewrite H. Qed.

Lemma update_game_ok (g : string) (f : GameRec -> GameRec) (w : World) (gr : GameRec) :
  w_db w !! g = Some gr ->
  update_game (Some g) f w = (set_db w (<[g := f gr]> (w_db w)), Ok tt).
Proof.
  intros H. unfold update_game. erewrite bind_ok; [|by apply game_of_ok]. done.
Qed.

Lemma db_getTurnsLeft_ok (g : string) (w : World) (gr : GameRec) :
  w_db w !! g = Some gr -> db_getTurnsLeft (Some g) w = (w, Ok (turnsLeft gr)).
Proof. intros H. unfold db_getTurnsLeft. by erewrite bind_ok; [|apply game_of_ok]. Qed.

Lemma db_getTokensOnTeam_ok (g : string) (t : Z) (w : World) (gr : GameRec) :
  w_db w !! g = Some gr ->
  db_getTokensOnTeam (Some g) t w =
  (w, Ok (map snd (filter (fun tk => Z.eqb tk.1 t) (team_tokens gr)))).
Proof. intros H. unfold db_getTokensOnTeam. by erewrite bind_ok; [|apply game_of_ok]. Qed.

Lemma iOSNotify_spec (g : option string) (tokens : list string) (title body : string) w :
  iOSNotify g tokens title body w =
  (set_out w (w_out w ++ match tokens with [] => [] | _ => [OutPush tokens title body] end),
   Ok tt).
Proof.
  unfold iOSNotify. destruct tokens; unfold_M.
  - by rewrite app_nil_r, set_out_id.
  - done.
Qed.


(** ** C10: [send] and [broadcast] *)

(** C10. [send] and [broadcast] write only to sockets whose readyState is 1
    (open): a closing or closed connection is never written to; and
    broadcasting to a game with no registered connection set changes
    nothing. ([send] and [broadcast] of [src/index.js] test readyState the
    same way.) *)
Theorem send_broadcast_only_open_sockets :
  (forall (c : Conn) (ev : Event),
     only_appends (fun _ _ o => exists gid e, o = OutWs (ws_id c) gid e /\ readyState c = 1)
       (send c ev)) /\
  (forall (g : string) (ev : Event), only_appends (open_member_frame g) (broadcast g ev)) /\
  (forall (g : string) (ev : Event) (w : World),
     match w_sockets w !! g with
     | None => broadcast g ev w = (w, Ok tt)
     | Some _ => True
     end).
Proof.
  split; [exact send_only_appends|]. split; [exact broadcast_only_appends|].
  intros g ev w. destruct (w_sockets w !! g) eqn:Hs; [done|].
  rewrite broadcast_spec. unfold broadcast_frames. rewrite Hs, app_nil_r. by destruct w.
Qed.

(** ** C5: [endTurn] *)

(** C5. [endTurn(gameId)] clears the turn record (Idle) and decrements
    turnsLeft by exactly one whatever the turn record was (also when Idle),
    and broadcasts a turns event carrying the decremented value to every
    open connection of the game; nothing else changes. *)
Theorem endTurn_idles_and_decrements (g : string) (w : World) (gr : GameRec) :
  w_db w !! g = Some gr ->
  endTurn g w =
  (set_out (set_db w (<[g := with_turn (with_turnsLeft gr (turnsLeft gr - 1)) None]> (w_db w)))
     (w_out w ++ broadcast_frames (w_sockets w) (w_conns w) g (EvTurns (turnsLeft gr - 1))),
   Ok tt).
Proof.
  intros H. unfold endTurn.
  erewrite bind_ok; [|by apply db_getTurnsLeft_ok].
  unfold db_setTurnsLeft.
  erewrite bind_ok; [|by apply update_game_ok].
  unfold db_setTurn.
  erewrite bind_ok; [|apply update_game_ok; autorewrite with world_fields; apply lookup_insert_eq].
  rewrite broadcast_spec. autorewrite with world_fields.
  by rewrite insert_insert_eq.
Qed.

Lemma endTurn_idles_and_decrements_witness :
  w_db (worldABCD gameABCD connAda connGrace) !! "ABCD" = Some gameABCD /\
  endTurn "ABCD" (worldABCD gameABCD connAda connGrace) =
  (set_out (set_db (worldABCD gameABCD connAda connGrace)
     (<["ABCD" := with_turn (with_turnsLeft gameABCD (turnsLeft gameABCD - 1)) None]>
        (w_db (worldABCD gameABCD connAda connGrace))))
     (w_out (worldABCD gameABCD connAda connGrace) ++
      broadcast_frames (w_sockets (worldABCD gameABCD connAda connGrace))
        (w_conns (worldABCD gameABCD connAda connGrace)) "ABCD"
        (EvTurns (turnsLeft gameABCD - 1))), Ok tt).
Proof.
  split; [reflexivity|].
  apply (endTurn_idles_and_decrements "ABCD" (worldABCD gameABCD connAda connGrace) gameABCD).
  reflexivity.
Defined.

(** ** C1: [giveClue] *)

(** C1 (as stated: the clueGiven event reports the budget n + 1) fails:
    Ada (team 1) gives "robot" for 2; the turn record gets a guess budget
    of 3, but every clueGiven frame carries number 2. *)
Lemma giveClue_reports_clue_number_not_budget :
  let '(w, _) := giveClue connAda "robot" 2 (worldABCD gameABCD connAda connGrace) in
  (exists gr tu, w_db w !! "ABCD" = Some gr /\ turn gr = Some tu /\ guessesLeft tu = 3) /\
  (exists o, In o (w_out w)) /\
  Forall (fun o => match o with
                   | OutWs _ _ (EvClueGiven _ n _) => n = 2 /\ n <> 3
                   | _ => True
                   end) (w_out w).
Proof.
  vm_compute. split; [eauto|]. split; [eauto|].
  repeat constructor; discriminate.
Qed.

(** C1, as the code does it. [giveClue(ws, w, n)] issued while the turn
    state is Idle (no turn record) installs the turn record of the
    connection's team with clue word [w], clue number [n] and the guess
    budget [n + 1] that the store's [setTurn] derives (modelled from the
    spec); the only other effects are notification calls and the clueGiven
    broadcast to every open connection of the game, which reports number
    [n], the clue number as given, not the budget. *)
Theorem giveClue_installs_turn_reports_number
    (ws : Conn) (g : string) (w : World) (gr : GameRec) (word : string) (n : Z) :
  gameId ws = Some g -> w_db w !! g = Some gr -> turn gr = None ->
  exists pushes pg,
    giveClue ws word n w =
    (set_out (set_db w (<[g := with_turn gr (Some (mkTurn (teamId ws) word n (n + 1)))]> (w_db w)))
       (w_out w ++ pushes ++
        broadcast_frames (w_sockets w) (w_conns w) g (EvClueGiven pg n word)), Ok tt) /\
    Forall (fun o => exists toks ti bo, o = OutPush toks ti bo) pushes.
Proof.
  intros Hg H _. unfold giveClue. rewrite Hg.
  erewrite bind_ok; [|by apply db_getTurnsLeft_ok].
  unfold db_setTurn.
  erewrite bind_ok; [|by apply update_game_ok].
  erewrite bind_ok;
    [|apply db_getTurnsLeft_ok; autorewrite with world_fields; apply lookup_insert_eq].
  cbn [turnsLeft with_turn]. rewrite Z.eqb_refl.
  erewrite bind_ok; [|reflexivity].
  erewrite bind_ok;
    [|apply db_getTokensOnTeam_ok; autorewrite with world_fields; apply lookup_insert_eq].
  erewrite bind_ok; [|apply iOSNotify_spec].
  cbn [broadcast_ws]. rewrite broadcast_spec.
  eexists _, _. split.
  - autorewrite with world_fields. by rewrite app_assoc.
  - destruct (map snd _); repeat constructor; eauto.
Qed.

Lemma giveClue_installs_turn_reports_number_witness :
  gameId connAda = Some "ABCD" /\
  w_db (worldABCD gameABCD connAda connGrace) !! "ABCD" = Some gameABCD /\
  turn gameABCD = None /\
  exists pushes pg,
    giveClue connAda "robot" 2 (worldABCD gameABCD connAda connGrace) =
    (set_out (set_db (worldABCD gameABCD connAda connGrace)
       (<["ABCD" := with_turn gameABCD (Some (mkTurn (teamId connAda) "robot" 2 (2 + 1)))]>
          (w_db (worldABCD gameABCD connAda connGrace))))
       (w_out (worldABCD gameABCD connAda connGrace) ++ pushes ++
        broadcast_frames (w_sockets (worldABCD gameABCD connAda connGrace))
          (w_conns (worldABCD gameABCD connAda connGrace)) "ABCD"
          (EvClueGiven pg 2 "robot")), Ok tt) /\
    Forall (fun o => exists toks ti bo, o = OutPush toks ti bo) pushes.
Proof.
  split; [reflexivity|]. split; [reflexivity|]. split; [reflexivity|].
  apply (giveClue_installs_turn_reports_number connAda "ABCD"
           (worldABCD gameABCD connAda connGrace) gameABCD "robot" 2); reflexivity.
Defined.

(** ** C2: the notification of [giveClue] *)

(** C2 fails on the code: [otherTeamId] is computed as
    [ws.teamId === 'one' ? 2 : 1], but [ws.teamId] holds the number 1 or 2,
    so [otherTeamId] is always 1. When Ada (team 1) gives a clue, the
    notification service is called with the tokens of team 1, the acting
    team, and Grace's token (team 2) is never notified. *)
Lemma giveClue_notifies_acting_team :
  let '(w, _) := giveClue connAda "robot" 2 (worldABCD gameABCD connAda connGrace) in
  In (OutPush ["tokAda"] "A clue has been given in your game"
        ("Ada gave the clue " ++ quoted "robot" ++ " - 2")%string) (w_out w) /\
  Forall (fun o => match o with
                   | OutPush toks _ _ => ~ In "tokGrace" toks
                   | _ => True
                   end) (w_out w).
Proof.
  vm_compute. split.
  - left. reflexivity.
  - repeat constructor. intros [H|[]]. discriminate.
Qed.

(** ** C6: guessing an already revealed word *)

Lemma db_getTurn_ok (g : string) (w : World) (gr : GameRec) :
  w_db w !! g = Some gr -> db_getTurn (Some g) w = (w, Ok (turn gr)).
Proof. intros H. unfold db_getTurn. by erewrite bind_ok; [|apply game_of_ok]. Qed.

Lemma db_makeGuess_revealed (g : string) (t : jsval) (word : string) (w : World)
    (gr : GameRec) (T : Team) (e : WordEntry) :
  w_db w !! g = Some gr -> team_of_id t = Some T ->
  word_lookup word (words gr) = Some e -> revealed_for T e = true ->
  db_makeGuess (Some g) t word w = (w, Ok None).
Proof.
  intros H HT Hl Hr. unfold db_makeGuess.
  erewrite bind_ok; [|by apply game_of_ok]. by rewrite HT, Hl, Hr.
Qed.

(** C6. Guessing, for team [T], a word already revealed for [T] is a
    no-op: [makeGuess] leaves the whole process state as it was, so no
    counter (agentsLeft, guessesLeft, turnsLeft), no reveal flag and no
    frame or notification changes. (The store's [makeGuess] is modelled
    from the spec's [recordGuess].) *)
Theorem makeGuess_revealed_noop (ws : Conn) (g : string) (w : World) (gr : GameRec)
    (word : string) (T : Team) (e : WordEntry) :
  gameId ws = Some g -> w_db w !! g = Some gr -> team_of_id (teamId ws) = Some T ->
  word_lookup word (words gr) = Some e -> revealed_for T e = true ->
  fst (makeGuess ws word w) = w.
Proof.
  intros Hg H HT Hl Hr. unfold makeGuess. rewrite Hg.
  erewrite bind_ok; [|by apply db_getTurn_ok].
  destruct (turn gr) as [tu|].
  - erewrite bind_ok; [|reflexivity].
    erewrite bind_ok; [|by apply db_getTurnsLeft_ok].
    erewrite bind_ok; [|by eapply db_makeGuess_revealed].
    reflexivity.
  - erewrite bind_thrown; reflexivity.
Qed.

Lemma makeGuess_revealed_noop_witness :
  turn gameABCDClue <> None /\
  snd (makeGuess connAda "android" (worldABCD gameABCDClue connAda connGrace)) = Ok tt /\
  fst (makeGuess connAda "android" (worldABCD gameABCDClue connAda connGrace)) =
  worldABCD gameABCDClue connAda connGrace.
Proof.
  split; [discriminate|]. split; [vm_compute; reflexivity|].
  apply (makeGuess_revealed_noop connAda "ABCD" (worldABCD gameABCDClue connAda connGrace)
           gameABCDClue "android" TeamOne (mkWordEntry Agent Agent true false));
    reflexivity.
Defined.

(** ** C8: disconnecting *)

(** C8 fails on the code. Ada (player 7, team 1, no token, no account id)
    disconnects: [handlePlayerLeft] sees no anchor and queues the removal,
    but the close listener resets [ws.gameId], [ws.playerId] and
    [ws.teamId] before the queued callback reads them, so
    [db.removePlayerFromTeam] gets undefined arguments and Ada stays on
    team 1 of game "ABCD" (while her connection has left the live set). *)
Lemma close_keeps_anchorless_member :
  w_jobs (fst (close_listener 0 (worldABCD gameABCD connAdaNoAnchor connGrace)))
    = [JobRemovePlayerFromTeam 0] /\
  w_conns (fst (close_listener 0 (worldABCD gameABCD connAdaNoAnchor connGrace))) !! 0%nat
    = Some (clear_conn connAdaNoAnchor) /\
  w_sockets (fst (on_close 0 (worldABCD gameABCD connAdaNoAnchor connGrace))) !! "ABCD"
    = Some [1%nat] /\
  on_team (fst (on_close 0 (worldABCD gameABCD connAdaNoAnchor connGrace))) "ABCD" 1 7.
Proof.
  split; [vm_compute; reflexivity|].
  split; [vm_compute; reflexivity|].
  split; [vm_compute; reflexivity|].
  exists gameABCD. split; [vm_compute; reflexivity|]. cbn. auto.
Qed.

(** ** The registry is left alone by the handlers *)

Lemma ks_ret {A} (a : A) : keeps_sockets (mret a).
Proof. done. Qed.
Lemma ks_get : keeps_sockets get.
Proof. done. Qed.
Lemma ks_throw {A} e : keeps_sockets (@throw A e).
Proof. done. Qed.
Lemma ks_modify (f : World -> World) :
  (forall w, w_sockets (f w) = w_sockets w) -> keeps_sockets (modify f).
Proof. intros H w. apply H. Qed.
Lemma ks_bind {A B} (m : M A) (f : A -> M B) :
  keeps_sockets m -> (forall a, keeps_sockets (f a)) -> keeps_sockets (m ≫= f).
Proof.
  intros Hm Hf w. unfold mbind, M_bind. specialize (Hm w).
  destruct (m w) as [w1 [a|e]]; cbn in *; [by rewrite Hf|done].
Qed.
Lemma ks_run_async (m : M unit) : keeps_sockets m -> keeps_sockets (run_async m).
Proof. intros H w. unfold run_async. specialize (H w). by destruct (m w). Qed.
Lemma ks_forEach {A} (f : A -> M unit) (l : list A) :
  (forall x, keeps_sockets (f x)) -> keeps_sockets (forEach f l).
Proof. intros H. induction l; cbn; [apply ks_ret|by apply ks_bind]. Qed.
Lemma ks_broadcast g ev : keeps_sockets (broadcast g ev).
Proof. intros w. rewrite broadcast_spec. by destruct w. Qed.

Create HintDb ks.
Hint Resolve ks_ret ks_get ks_throw ks_broadcast : ks.

Ltac ks :=
  repeat match goal with
  | |- keeps_sockets (_ ≫= _) => apply ks_bind; [|intros]
  | |- keeps_sockets (run_async _) => apply ks_run_async
  | |- keeps_sockets (forEach _ _) => apply ks_forEach; intros
  | |- keeps_sockets (modify _) => apply ks_modify; intros [];
                                     reflexivity
  | |- keeps_sockets (match ?x with _ => _ end) => destruct x
  | |- keeps_sockets (if ?b then _ else _) => destruct b
  | |- keeps_sockets (broadcast _ _) => apply ks_broadcast
  | |- keeps_sockets _ => solve [eauto with ks]
  | |- keeps_sockets ?m =>
      let h := eval red in m in
      progress change (keeps_sockets h)
  end.

Lemma ks_giveClue ws wd n : keeps_sockets (giveClue ws wd n).
Proof. ks. Qed.
Lemma ks_makeGuess ws wd : keeps_sockets (makeGuess ws wd).
Proof. ks. Qed.
Lemma ks_endTurn g : keeps_sockets (endTurn g).
Proof. ks. Qed.

(** ** C9: joining the live set before dispatch *)

Lemma conn_ok (id : nat) (w : World) (c : Conn) :
  w_conns w !! id = Some c -> conn id w = (w, Ok c).
Proof. intros H. unfold conn. unfold_M. by rewrite H. Qed.

Lemma send_spec (c : Conn) (ev : Event) (w : World) :
  send c ev w =
  (set_out w (w_out w ++ if Z.eqb (readyState c) 1
                         then [OutWs (ws_id c) (gameId c) ev] else []), Ok tt).
Proof.
  unfold send. destruct (Z.eqb (readyState c) 1); unfold_M; [done|].
  by rewrite app_nil_r, set_out_id.
Qed.

Lemma forEach_replay_one (ws : Conn) (cnt : Z) (ids : list nat) (w : World) :
  forEach (replay_one ws cnt) ids w =
  (set_out w (w_out w ++ replay_frames ws cnt (w_conns w) ids), Ok tt).
Proof.
  revert w. induction ids as [|cid ids IH]; intros w; cbn [forEach].
  - cbn. by rewrite app_nil_r, set_out_id.
  - unfold replay_frames. cbn [map concat].
    assert (Hstep : replay_one ws cnt cid w =
      (set_out w (w_out w ++
         match w_conns w !! cid with
         | Some client =>
             if Z.eqb client.(readyState) 1 then
               if Z.eqb ws.(readyState) 1
               then [OutWs ws.(ws_id) ws.(gameId)
                       (EvPlayerJoined cnt client.(playerName) client.(playerId)
                          client.(facebookImage) client.(teamId))]
               else []
             else []
         | None => []
         end), Ok tt)).
    { unfold replay_one. erewrite bind_ok; [|reflexivity].
      destruct (w_conns w !! cid) as [cl|]; [destruct (Z.eqb (readyState cl) 1)|].
      - apply send_spec.
      - unfold_M. by rewrite app_nil_r, set_out_id.
      - unfold_M. by rewrite app_nil_r, set_out_id. }
    erewrite bind_ok; [|exact Hstep]. rewrite IH.
    autorewrite with world_fields. unfold replay_frames. by rewrite app_assoc.
Qed.

Lemma replay_frames_insert_notin (ws : Conn) (cnt : Z) (conns : gmap nat Conn)
    (ids : list nat) (id : nat) (x : Conn) :
  id ∉ ids -> replay_frames ws cnt (<[id := x]> conns) ids = replay_frames ws cnt conns ids.
Proof.
  induction ids as [|cid ids IH]; intros Hn; [done|].
  apply not_elem_of_cons in Hn as [Hne Hn].
  unfold replay_frames in *. cbn [map concat].
  rewrite lookup_insert_ne by congruence. by rewrite IH.
Qed.

Lemma ks_getOrCreateGame fresh g : keeps_sockets (getOrCreateGame fresh g).
Proof. ks. Qed.

Lemma replay_frames_agree (ws : Conn) (cnt : Z) (c1 c2 : gmap nat Conn) (ids : list nat) :
  (forall cid, cid ∈ ids -> c1 !! cid = c2 !! cid) ->
  replay_frames ws cnt c1 ids = replay_frames ws cnt c2 ids.
Proof.
  induction ids as [|cid ids IH]; intros Hag; [done|].
  unfold replay_frames in *. cbn [map concat].
  rewrite (Hag cid) by (apply elem_of_cons; left; done).
  rewrite IH; [done|]. intros x Hx. apply Hag. apply elem_of_cons. by right.
Qed.

Lemma getOrCreateGame_ok (fresh : GameRec) (g : string) (w : World) :
  exists w', getOrCreateGame fresh g w = (w', Ok tt) /\ w_sockets w' = w_sockets w.
Proof.
  unfold getOrCreateGame, db_getGame, db_setGame. unfold_M.
  destruct (w_db w !! g); eexists; (split; [reflexivity|]); by destruct w.
Qed.

Lemma join_registry_spec (fresh : GameRec) (id : nat) (g : string) (w : World) (c : Conn) :
  w_conns w !! id = Some c -> ws_id c = id ->
  exists w', join_registry fresh id g w = (w', Ok tt) /\
    (exists ids, w_sockets w' !! g = Some ids /\ id ∈ ids) /\
    (forall ids, w_sockets w !! g = Some ids -> id ∉ ids ->
       w_sockets w' !! g = Some (ids ++ [id]) /\
       w_out w' = w_out w ++
         replay_frames (with_gameId_if_unset c g) (Z.of_nat (length ids)) (w_conns w) ids).
Proof.
  intros Hc Hid. unfold join_registry.
  erewrite bind_ok; [|by apply conn_ok].
  match goal with |- context [ ((?m ≫= ?k) w) ] =>
    assert (Hfirst : exists w1, m w = (w1, Ok tt) /\ w_sockets w1 = w_sockets w /\
      w_out w1 = w_out w /\ w_conns w1 !! id = Some (with_gameId_if_unset c g) /\
      (forall cid, cid <> id -> w_conns w1 !! cid = w_conns w !! cid))
  end.
  { unfold with_gameId_if_unset.
    destruct (negb (str_truthy (gameId c))).
    - eexists. split; [reflexivity|]. autorewrite with world_fields.
      cbn [ws_id]. rewrite Hid. split; [done|]. split; [done|].
      split; [apply lookup_insert_eq|]. intros cid Hne. by apply lookup_insert_ne.
    - exists w. done. }
  destruct Hfirst as (w1 & Hm & Hs1 & Ho1 & Hc1 & Hne1).
  erewrite bind_ok; [|exact Hm].
  erewrite bind_ok; [|reflexivity].
  rewrite Hs1. destruct (w_sockets w !! g) as [ids|] eqn:Hs.
  - destruct (bool_decide (id ∈ ids)) eqn:Hin.
    + apply bool_decide_eq_true in Hin.
      exists w1. split; [reflexivity|]. split.
      * exists ids. by rewrite Hs1.
      * intros ids' Hs' Hn. congruence.
    + apply bool_decide_eq_false in Hin.
      erewrite bind_ok; [|by apply conn_ok].
      erewrite bind_ok; [|apply forEach_replay_one].
      eexists. split; [reflexivity|].
      autorewrite with world_fields. split.
      * exists (ids ++ [id]). split; [apply lookup_insert_eq|].
        apply elem_of_app. right. apply list_elem_of_singleton. done.
      * intros ids' Hs' _. injection Hs' as <-.
        split; [apply lookup_insert_eq|]. rewrite Ho1. f_equal.
        apply replay_frames_agree. intros cid Hcid. apply Hne1.
        intros ->. contradiction.
  - erewrite bind_ok; [|reflexivity].
    destruct (getOrCreateGame_ok fresh g
      (set_sockets w1 (<[g:=[id]]> (w_sockets w1)))) as (w2 & Hg2 & Hs2).
    rewrite Hg2. exists w2. split; [reflexivity|]. split.
    + exists [id]. rewrite Hs2. autorewrite with world_fields.
      split; [apply lookup_insert_eq|]. apply list_elem_of_singleton. done.
    + intros ids' Hs'. congruence.
Qed.

Lemma ks_implicit_change (hpc : nat -> Payload -> M unit) (id : nat) (msg : InMsg) :
  (forall i p, keeps_sockets (hpc i p)) -> keeps_sockets (implicit_change hpc id msg).
Proof. intros H. unfold implicit_change, conn. ks; apply H. Qed.

Lemma ks_handleRequest (other : nat -> InMsg -> M unit) (id : nat) (msg : InMsg) :
  (forall i m, keeps_sockets (other i m)) -> keeps_sockets (handleRequest other id msg).
Proof.
  intros H. unfold handleRequest, conn.
  ks; first [apply H | apply ks_giveClue | apply ks_makeGuess | apply ks_endTurn].
Qed.

(** C9. For a message [{ gameId: g, ... }] with a non-empty [g] from a
    connection: (1) after the registry step of [handleInitialRequest] the
    connection is in [sockets[g]]; (2) if [sockets[g]] existed without it,
    it is appended to the set and the only frames written are the roster
    replay to it, one playerJoined per open connection of the set; (3) the
    typed action of [handleRequest] starts from a state where the
    connection is in [sockets[g]]; (4) after the message is processed the
    connection is in [sockets[g]] (none of the handlers writes [sockets];
    [handlePlayerChanged] and the handlers not modelled here are taken as
    any actions that leave [sockets] alone). *)
Theorem message_joins_live_set_before_dispatch
    (fresh : GameRec) (hpc : nat -> Payload -> M unit) (other : nat -> InMsg -> M unit)
    (Hhpc : forall i p, keeps_sockets (hpc i p))
    (Hother : forall i m, keeps_sockets (other i m))
    (id : nat) (g : string) (msg : InMsg) (w : World) (c : Conn) :
  in_gameId msg = Some g -> str_truthy (Some g) = true ->
  w_conns w !! id = Some c -> ws_id c = id ->
  (exists ids, w_sockets (fst (join_registry fresh id g w)) !! g = Some ids /\ id ∈ ids) /\
  (forall ids, w_sockets w !! g = Some ids -> id ∉ ids ->
     w_sockets (fst (join_registry fresh id g w)) !! g = Some (ids ++ [id]) /\
     w_out (fst (join_registry fresh id g w)) =
       w_out w ++ replay_frames (with_gameId_if_unset c g) (Z.of_nat (length ids))
                    (w_conns w) ids) /\
  (forall w2, handleInitialRequest fresh hpc id msg w = (w2, Ok tt) ->
     exists ids, w_sockets w2 !! g = Some ids /\ id ∈ ids) /\
  (exists ids, w_sockets (fst (on_message fresh hpc other id msg w)) !! g = Some ids /\
     id ∈ ids).
Proof.
  intros Hg Ht Hc Hid.
  destruct (join_registry_spec fresh id g w c Hc Hid) as (w' & Hj & Hmem & Hrep).
  assert (Hhir : handleInitialRequest fresh hpc id msg w = implicit_change hpc id msg w').
  { unfold handleInitialRequest. rewrite Hg, Ht. by erewrite bind_ok. }
  assert (Hks : w_sockets (fst (handleInitialRequest fresh hpc id msg w)) = w_sockets w').
  { rewrite Hhir. by apply ks_implicit_change. }
  rewrite Hj. cbn [fst]. split; [done|]. split; [done|]. split.
  - intros w2 H2. rewrite H2 in Hks. cbn in Hks. by rewrite Hks.
  - unfold on_message, run_async.
    destruct ((handleInitialRequest fresh hpc id msg;; handleRequest other id msg) w)
      as [w3 r] eqn:E. cbn [fst].
    unfold mbind, M_bind in E.
    destruct (handleInitialRequest fresh hpc id msg w) as [w2 [u|e]] eqn:E2;
      cbn [fst] in Hks.
    + pose proof (ks_handleRequest other id msg Hother w2) as Hr.
      rewrite E in Hr. cbn [fst] in Hr. by rewrite Hr, Hks.
    + injection E as <- _. by rewrite Hks.
Qed.

Lemma message_joins_live_set_before_dispatch_witness :
  exists ids, w_sockets (fst (on_message gameABCD (fun _ _ => mret tt) (fun _ _ => mret tt)
                 2 msgWords worldABCD_new)) !! "ABCD" = Some ids /\ (2%nat) ∈ ids.
Proof.
  destruct (message_joins_live_set_before_dispatch gameABCD
              (fun _ _ => mret tt) (fun _ _ => mret tt)
              (fun _ _ => ks_ret tt) (fun _ _ => ks_ret tt)
              2 "ABCD" msgWords worldABCD_new connNew
              eq_refl eq_refl eq_refl eq_refl) as (_ & _ & _ & H).
  exact H.
Defined.

(** ** C3: a malformed message *)

(** C3 fails on the code. Whatever [JSON.parse] does, when it throws on
    the frame received, the ['message'] listener ends with that very
    exception: nothing catches it, no handler runs and the state is left
    as it was; the exception leaves the listener (an uncaught exception of
    the process) instead of the message being dropped. *)
Theorem message_listener_parse_error_escapes
    (fresh : GameRec) (hpc : nat -> Payload -> M unit) (other : nat -> InMsg -> M unit)
    (JSON_parse : string -> Res InMsg) (id : nat) (data : string) (w : World) :
  match JSON_parse data with
  | Thrown e => message_listener fresh hpc other JSON_parse id data w = (w, ListenerThrew e)
  | Ok _ => True
  end.
Proof.
  unfold message_listener. by destruct (JSON_parse data).
Qed.

(** ** C4: starting a new game *)

(** C4 fails on the code ([src/index.js]): [playerTwoToken] is read with
    [game.getTokenForPlayer('one')], and player two is put back only when
    that value is truthy. With Ada (token "tokAda") and Grace (token
    "tokGrace"), the new game gives Grace Ada's token; with no tokens at
    all, Grace is not put back in the new game, while Ada is. *)
Lemma startNewGame_loses_player_two :
  (InMemory.handleStartNewGame InMemory.freshGame InMemory.freshGame
     (<["ABCD" := InMemory.gameAdaGrace (Some "tokAda") (Some "tokGrace")]> ∅) "ABCD"
     !! "ABCD" = Some (InMemory.mkGame (InMemory.g_words InMemory.freshGame) None 9
                        (Some "Ada") (Some "Grace") (Some "tokAda") (Some "tokAda"))) /\
  (InMemory.handleStartNewGame InMemory.freshGame InMemory.freshGame
     (<["ABCD" := InMemory.gameAdaGrace None None]> ∅) "ABCD"
     !! "ABCD" = Some (InMemory.mkGame (InMemory.g_words InMemory.freshGame) None 9
                        (Some "Ada") None None None)).
Proof. split; vm_compute; reflexivity. Qed.

(** * Further properties of the code *)

(** ** Keeping connections alive *)

Lemma heartbeat_spec (cs : list WsClient) :
  heartbeat cs =
  (map (fun c => mkWsClient (cl_id c) false) (List.filter isAlive cs),
   map (fun c => if isAlive c then Ping (cl_id c) else Terminate (cl_id c)) cs).
Proof.
  induction cs as [|c cs IH]; [done|]. cbn. rewrite IH.
  destruct (isAlive c); reflexivity.
Qed.

(** A client that answers no ping is terminated by the interval callback
    at the latest on its second run: one run clears its flag, the next one
    finds it cleared. Clients that connect in between change nothing to
    that. *)
Theorem silent_client_terminated_within_two_beats
    (cs ns : list WsClient) (id : nat) :
  In id (map cl_id cs) ->
  Terminate id ∈ snd (heartbeat cs) ++ snd (heartbeat (fst (heartbeat cs) ++ ns)).
Proof.
  intros Hin. rewrite !heartbeat_spec. cbn [fst snd].
  apply in_map_iff in Hin as [c [Hid Hc]].
  destruct (isAlive c) eqn:Ha.
  - apply elem_of_app. right. rewrite map_app. apply elem_of_app. left.
    apply list_elem_of_In. apply in_map_iff.
    exists (mkWsClient (cl_id c) false). cbn. split; [by rewrite Hid|].
    apply in_map_iff. exists c. split; [done|]. apply filter_In. split; [exact Hc|exact Ha].
  - apply elem_of_app. left. apply list_elem_of_In. apply in_map_iff.
    exists c. by rewrite Ha, Hid.
Qed.

Lemma silent_client_terminated_within_two_beats_witness :
  In 0%nat (map cl_id [mkWsClient 0 true]) /\
  Terminate 0 ∈ snd (heartbeat [mkWsClient 0 true]) ++
    snd (heartbeat (fst (heartbeat [mkWsClient 0 true]) ++ [mkWsClient 1 true])).
Proof.
  split; [left; reflexivity|].
  apply (silent_client_terminated_within_two_beats [mkWsClient 0 true] [mkWsClient 1 true] 0).
  left; reflexivity.
Defined.

Lemma on_pong_alive (cs : list WsClient) (id : nat) :
  Forall (fun c => cl_id c = id -> isAlive c = true) (on_pong cs id).
Proof.
  apply Forall_forall. intros c Hc. unfold on_pong in Hc.
  apply list_elem_of_In, in_map_iff in Hc as [c0 [<- _]].
  cbn beta. destruct (Nat.eqb (cl_id c0) id) eqn:E; [done|].
  intros Hid. subst id. by rewrite Nat.eqb_refl in E.
Qed.

(** A new connection that answers every ping before the next run of the
    interval callback: on each of the [n] runs it is pinged and not
    terminated. *)
Theorem answering_client_never_terminated (cs : list WsClient) (id n : nat) :
  id ∉ map cl_id cs ->
  length (runs_answering id n (on_connection cs id)) = n /\
  Forall (fun beats => Ping id ∈ beats /\ Terminate id ∉ beats)
    (runs_answering id n (on_connection cs id)).
Proof.
  intros Hfresh.
  assert (Hinv : In (mkWsClient id true) (on_connection cs id) /\
                 Forall (fun c => cl_id c = id -> isAlive c = true) (on_connection cs id)).
  { unfold on_connection. split; [apply in_or_app; right; left; reflexivity|].
    apply Forall_app. split.
    - apply Forall_forall. intros c Hc Hid. exfalso. apply Hfresh.
      apply list_elem_of_In. apply in_map_iff. apply list_elem_of_In in Hc. by exists c.
    - repeat constructor. }
  revert Hinv. generalize (on_connection cs id) as l. clear Hfresh.
  induction n as [|n IH]; intros l [Hm Hl]; cbn; [split; [done|constructor]|].
  destruct (heartbeat l) as [l' bs] eqn:Hh.
  rewrite heartbeat_spec in Hh. injection Hh as <- <-.
  destruct (IH (on_pong (map (fun c => mkWsClient (cl_id c) false) (List.filter isAlive l)) id))
    as [Hlen Hall].
  { split; [|apply on_pong_alive].
    unfold on_pong. apply in_map_iff. exists (mkWsClient id false).
    cbn. rewrite Nat.eqb_refl. split; [reflexivity|].
    apply in_map_iff. exists (mkWsClient id true). split; [reflexivity|].
    apply filter_In. split; [exact Hm|reflexivity]. }
  split; [cbn; by rewrite Hlen|]. constructor; [|exact Hall]. split.
  - apply list_elem_of_In, in_map_iff. exists (mkWsClient id true). split; [reflexivity|exact Hm].
  - intros Hin. apply list_elem_of_In, in_map_iff in Hin as [c [Hc Hcl]].
    rewrite Forall_forall in Hl.
    destruct (isAlive c) eqn:Ha; [discriminate|].
    injection Hc as Hc. rewrite (Hl c (proj2 (list_elem_of_In l c) Hcl) Hc) in Ha. discriminate.
Qed.

Lemma answering_client_never_terminated_witness :
  (0%nat ∉ map cl_id [mkWsClient 1 false]) /\
  length (runs_answering 0 3 (on_connection [mkWsClient 1 false] 0)) = 3%nat /\
  Forall (fun beats => Ping 0 ∈ beats /\ Terminate 0 ∉ beats)
    (runs_answering 0 3 (on_connection [mkWsClient 1 false] 0)).
Proof.
  assert (H0 : 0%nat ∉ map cl_id [mkWsClient 1 false]).
  { vm_compute. intros H. inversion H; subst. inversion H2. }
  split; [exact H0|].
  apply answering_client_never_terminated. exact H0.
Defined.

(** ** The in-memory server: [getOrCreateGame] and [handleStartNewGame] *)

(** [getOrCreateGame] creates a game at most once: it returns the game
    stored for the id if there is one, leaving the map as it is; once it
    has run, another call returns the same game and changes nothing,
    whatever [new Game()] it would create. *)
Theorem getOrCreateGame_idempotent
    (created1 created2 : InMemory.Game) (games : gmap string InMemory.Game) (g : string) :
  (forall game, games !! g = Some game ->
     InMemory.getOrCreateGame created1 games g = (games, game)) /\
  InMemory.getOrCreateGame created2 (InMemory.getOrCreateGame created1 games g).1 g =
  InMemory.getOrCreateGame created1 games g.
Proof.
  unfold InMemory.getOrCreateGame. split.
  - intros game H. by rewrite H.
  - destruct (games !! g) as [game|] eqn:H; cbn.
    + by rewrite H.
    + by rewrite lookup_insert_eq.
Qed.

(** [handleStartNewGame] (in-memory) replaces the game by the new one (its
    words, turn record and turnsLeft) and puts player one back with the
    name and token it had, when it had a name; the other games are left
    alone. *)
Theorem startNewGame_keeps_player_one
    (created fresh game : InMemory.Game) (games : gmap string InMemory.Game) (g : string) :
  games !! g = Some game -> str_truthy (InMemory.playerOneName game) = true ->
  (exists game',
     InMemory.handleStartNewGame created fresh games g !! g = Some game' /\
     InMemory.g_words game' = InMemory.g_words fresh /\
     InMemory.g_turn game' = InMemory.g_turn fresh /\
     InMemory.g_turnsLeft game' = InMemory.g_turnsLeft fresh /\
     InMemory.playerOneName game' = InMemory.playerOneName game /\
     InMemory.playerOneToken game' = InMemory.playerOneToken game) /\
  (forall g', g' <> g -> InMemory.handleStartNewGame created fresh games g !! g' = games !! g').
Proof.
  intros H Hn. unfold InMemory.handleStartNewGame, InMemory.getOrCreateGame.
  rewrite H. cbn [InMemory.getPlayerName InMemory.getTokenForPlayer]. rewrite Hn.
  rewrite lookup_insert_eq.
  destruct (str_truthy (if str_truthy (InMemory.playerTwoName game)
                        then InMemory.playerOneToken game else None)).
  - split.
    + eexists. rewrite lookup_insert_eq. split; [reflexivity|].
      destruct fresh; cbn; auto.
    + intros g' Hne. rewrite !lookup_insert_ne by congruence. reflexivity.
  - split.
    + eexists. rewrite lookup_insert_eq. split; [reflexivity|].
      destruct fresh; cbn; auto.
    + intros g' Hne. rewrite !lookup_insert_ne by congruence. reflexivity.
Qed.

Lemma startNewGame_keeps_player_one_witness :
  (<["ABCD" := InMemory.gameAdaGrace None None]> ∅ : gmap string InMemory.Game) !! "ABCD"
    = Some (InMemory.gameAdaGrace None None) /\
  str_truthy (InMemory.playerOneName (InMemory.gameAdaGrace None None)) = true /\
  exists game',
     InMemory.handleStartNewGame InMemory.freshGame InMemory.freshGame
       (<["ABCD" := InMemory.gameAdaGrace None None]> ∅) "ABCD" !! "ABCD" = Some game' /\
     InMemory.playerOneName game' = Some "Ada".
Proof.
  assert (H0 : (<["ABCD" := InMemory.gameAdaGrace None None]> ∅
                 : gmap string InMemory.Game) !! "ABCD"
               = Some (InMemory.gameAdaGrace None None)) by (vm_compute; reflexivity).
  split; [exact H0|]. split; [reflexivity|].
  destruct (startNewGame_keeps_player_one InMemory.freshGame InMemory.freshGame
              (InMemory.gameAdaGrace None None)
              (<["ABCD" := InMemory.gameAdaGrace None None]> ∅) "ABCD"
              H0 eq_refl) as [(game' & H1 & _ & _ & _ & H5 & _) _].
  exists game'. split; [exact H1|]. exact H5.
Defined.

(** ** The client's game reducer *)

Lemma props_get_snoc (k k' : string) (v : jv) (ps : list (string * jv)) :
  props_get k (ps ++ [(k', v)]) = if String.eqb k' k then v else props_get k ps.
Proof. unfold props_get. rewrite fold_left_app. reflexivity. Qed.

(** [updateWordInGame] in the reducer: a reveal for another game than the
    one in the state leaves the state as it is; a reveal for the state's
    game replaces the entry of that word by the object
    [{ roleRevealedForClueGiver }] alone (the properties the entry had are
    dropped), keeps every other word's entry and every other property of
    the state; an action with no payload makes the reducer throw. *)
Theorem updateWordInGame_replaces_entry (ps qs : list (string * jv)) (g wd : string) :
  (jv_strict_eq (props_get "gameId" qs) (props_get "gameId" ps) = false ->
   gameReducer (JvObj ps) (UpdateWordInGame (JvObj qs)) = Ok (JvObj ps)) /\
  (props_get "gameId" qs = JvStr g -> props_get "gameId" ps = JvStr g ->
   props_get "word" qs = JvStr wd ->
   exists ps' ws',
     gameReducer (JvObj ps) (UpdateWordInGame (JvObj qs)) = Ok (JvObj ps') /\
     props_get "words" ps' = JvObj ws' /\
     props_get wd ws' =
       JvObj [("roleRevealedForClueGiver", props_get "roleRevealedForClueGiver" qs)] /\
     (forall k, k <> wd -> props_get k ws' = props_get k (spread (props_get "words" ps))) /\
     (forall k, k <> "words" -> props_get k ps' = props_get k ps)) /\
  (forall st, exists e, gameReducer st (UpdateWordInGame JvUndef) = Thrown e).
Proof.
  split; [|split].
  - intros Hne. cbn. rewrite Hne. reflexivity.
  - intros Hq Hp Hw. cbn. rewrite Hq, Hp, Hw. cbn. rewrite String.eqb_refl. cbn.
    eexists _, _. split; [reflexivity|]. split.
    + rewrite props_get_snoc. reflexivity.
    + split; [|split].
      * rewrite props_get_snoc, String.eqb_refl. reflexivity.
      * intros k Hk. rewrite props_get_snoc.
        destruct (String.eqb wd k) eqn:E; [apply String.eqb_eq in E; congruence|done].
      * intros k Hk. rewrite props_get_snoc.
        destruct (String.eqb "words" k) eqn:E; [apply String.eqb_eq in E; congruence|done].
  - intros st. destruct st; eexists; reflexivity.
Qed.

Lemma updateWordInGame_replaces_entry_witness :
  exists ps' ws',
    gameReducer clientGame (UpdateWordInGame (revealRobot "ABCD")) = Ok (JvObj ps') /\
    props_get "words" ps' = JvObj ws' /\
    props_get "robot" ws' = JvObj [("roleRevealedForClueGiver", JvStr "agent")].
Proof.
  destruct (updateWordInGame_replaces_entry
    [("gameId", JvStr "ABCD");
     ("words", JvObj [("robot", JvObj [("role", JvStr "agent")]);
                      ("laser", JvObj [("role", JvStr "assassin")])]);
     ("turnsLeft", JvNum 9)]
    [("gameId", JvStr "ABCD"); ("word", JvStr "robot");
     ("roleRevealedForClueGiver", JvStr "agent")] "ABCD" "robot") as [_ [H _]].
  destruct (H eq_refl eq_refl eq_refl) as (ps' & ws' & H1 & H2 & H3 & _).
  exists ps', ws'. split; [exact H1|]. split; [exact H2|]. exact H3.
Defined.

(** ** The server's listeners and handlers *)

Lemma handlePlayerLeft_spec (id : nat) (g : string) (ids : list nat) (w : World) (c : Conn) :
  w_conns w !! id = Some c -> gameId c = Some g -> w_sockets w !! g = Some ids ->
  handlePlayerLeft id w =
  (set_jobs
     (set_out w (w_out w ++
        (if Z.eqb (Z.of_nat (length ids)) 0 then []
         else broadcast_frames (w_sockets w) (w_conns w) g
                (EvPlayerLeft (Z.of_nat (length ids)) (playerName c) (playerId c) (teamId c)))))
     (w_jobs w ++
        (if js_truthy (teamId c) && negb (str_truthy (facebookId c)) && negb (str_truthy (token c))
         then [JobRemovePlayerFromTeam id] else [])), Ok tt).
Proof.
  intros Hc Hg Hs. unfold handlePlayerLeft.
  erewrite bind_ok; [|by apply conn_ok].
  erewrite bind_ok; [|reflexivity].
  rewrite Hg, Hs.
  erewrite bind_ok; [|reflexivity].
  destruct (Z.eqb (Z.of_nat (length ids)) 0).
  - erewrite bind_ok; [|reflexivity].
    destruct (js_truthy (teamId c) && negb (str_truthy (facebookId c)) && negb (str_truthy (token c)));
      unfold enqueue; unfold_M; destruct w; cbn; rewrite ?app_nil_r; reflexivity.
  - erewrite bind_ok; [|cbn [broadcast_ws]; apply broadcast_spec].
    destruct (js_truthy (teamId c) && negb (str_truthy (facebookId c)) && negb (str_truthy (token c)));
      unfold enqueue; unfold_M; destruct w; cbn; rewrite ?app_nil_r; reflexivity.
Qed.

Lemma close_listener_spec (id : nat) (g : string) (ids : list nat) (w : World) (c : Conn) :
  w_conns w !! id = Some c -> ws_id c = id -> gameId c = Some g -> str_truthy (Some g) = true ->
  w_sockets w !! g = Some ids ->
  close_listener id w =
  (mkWorld (w_db w) (w_players w) (<[g := remove Nat.eq_dec id ids]> (w_sockets w))
     (<[id := clear_conn c]> (w_conns w))
     (w_out w ++
        (if Z.eqb (Z.of_nat (length (remove Nat.eq_dec id ids))) 0 then []
         else broadcast_frames (<[g := remove Nat.eq_dec id ids]> (w_sockets w)) (w_conns w) g
                (EvPlayerLeft (Z.of_nat (length (remove Nat.eq_dec id ids)))
                   (playerName c) (playerId c) (teamId c))))
     (w_jobs w ++
        (if js_truthy (teamId c) && negb (str_truthy (facebookId c)) && negb (str_truthy (token c))
         then [JobRemovePlayerFromTeam id] else [])), Ok tt).
Proof.
  intros Hc Hid Hg Ht Hs. unfold close_listener.
  erewrite bind_ok; [|by apply conn_ok].
  erewrite bind_ok; [|reflexivity].
  rewrite Hg, Ht. cbn [negb]. rewrite Hs.
  erewrite bind_ok; [|reflexivity].
  erewrite bind_ok.
  2:{ unfold run_async.
      rewrite (handlePlayerLeft_spec id g (remove Nat.eq_dec id ids) _ c); [reflexivity| | exact Hg |].
      - by autorewrite with world_fields.
      - autorewrite with world_fields. apply lookup_insert_eq. }
  erewrite bind_ok; [|apply conn_ok; destruct w; exact Hc].
  unfold set_conn. unfold_M. destruct w; cbn. rewrite Hid. reflexivity.
Qed.

Lemma broadcast_step_frames (conns : gmap nat Conn) (g : string) (ev : Event) (l : list nat) :
  Forall (fun o => exists id' c', o = OutWs id' (Some g) ev /\ In id' l /\
                    conns !! id' = Some c' /\ readyState c' = 1)
    (concat (map (broadcast_step conns g ev) l)).
Proof.
  induction l as [|x l IH]; cbn; [constructor|].
  apply Forall_app. split.
  - unfold broadcast_step. destruct (conns !! x) as [c|] eqn:Hx; [|constructor].
    destruct (Z.eqb (readyState c) 1) eqn:Hr; [|constructor].
    repeat constructor. exists x, c. repeat split; auto. by apply Z.eqb_eq.
  - eapply Forall_impl; [exact IH|]. intros o (id' & c' & H1 & H2 & H3 & H4).
    exists id', c'. auto.
Qed.

Lemma mark_closed_spec (id : nat) (w : World) (c : Conn) :
  w_conns w !! id = Some c -> ws_id c = id ->
  mark_closed id w = (set_conns w (<[id := closed c]> (w_conns w)), Ok tt).
Proof.
  intros Hc Hid. unfold mark_closed.
  erewrite bind_ok; [|by apply conn_ok]. unfold set_conn, modify. cbn. by rewrite Hid.
Qed.

Lemma run_jobs_cleared_removal (id : nat) (w : World) (c : Conn) :
  w_conns w !! id = Some (clear_conn c) ->
  Forall (fun j => j = JobRemovePlayerFromTeam id) (w_jobs w) ->
  run_jobs w = (set_jobs w [], Ok tt).
Proof.
  intros Hc Hj. unfold run_jobs.
  erewrite bind_ok; [|reflexivity].
  erewrite bind_ok; [|reflexivity].
  assert (Hc' : w_conns (set_jobs w []) !! id = Some (clear_conn c)) by (destruct w; exact Hc).
  revert Hc' Hj. generalize (w_jobs w) as l. generalize (set_jobs w []) as w'.
  intros w' l Hc'. induction l as [|j l IH]; intros Hj; [reflexivity|].
  inversion Hj as [|? ? Hj1 Hjl]; subst. cbn [forEach].
  erewrite bind_ok; [|unfold run_async, run_job; erewrite bind_ok; [|by apply conn_ok]; reflexivity].
  exact (IH Hjl).
Qed.

(** Closing a connection bound to a game with a live set, with no job
    pending (the socket becomes CLOSED, the ['close'] listener and
    [handlePlayerLeft] run, then the jobs they queued): the connection
    leaves the live set of its game, is CLOSED with its fields cleared, the
    other connections are left as they were, the database is untouched
    (the queued removal reads the cleared fields) and no job is left; every
    frame sent is a [playerLeft] event, with the number of connections
    left, to another open connection of the game. *)
Theorem close_leaves_live_set (id : nat) (g : string) (ids : list nat) (w : World) (c : Conn) :
  w_conns w !! id = Some c -> ws_id c = id -> gameId c = Some g -> str_truthy (Some g) = true ->
  w_sockets w !! g = Some ids -> w_jobs w = [] ->
  w_sockets (fst (close_event id w)) = <[g := remove Nat.eq_dec id ids]> (w_sockets w) /\
  w_conns (fst (close_event id w)) !! id = Some (clear_conn (closed c)) /\
  readyState (clear_conn (closed c)) = 3 /\
  (forall id', id' <> id -> w_conns (fst (close_event id w)) !! id' = w_conns w !! id') /\
  w_db (fst (close_event id w)) = w_db w /\
  w_jobs (fst (close_event id w)) = [] /\
  exists frames, w_out (fst (close_event id w)) = w_out w ++ frames /\
    Forall (fun o => exists id' c', o = OutWs id' (Some g)
              (EvPlayerLeft (Z.of_nat (length (remove Nat.eq_dec id ids)))
                 (playerName c) (playerId c) (teamId c)) /\
              id' <> id /\ In id' ids /\ w_conns w !! id' = Some c' /\ readyState c' = 1) frames.
Proof.
  intros Hc Hid Hg Ht Hs Hj. unfold close_event.
  erewrite bind_ok; [|by apply mark_closed_spec].
  unfold on_close.
  erewrite bind_ok.
  2:{ unfold run_async.
      rewrite (close_listener_spec id g ids _ (closed c)); [reflexivity| |exact Hid|exact Hg|exact Ht|].
      - autorewrite with world_fields. apply lookup_insert_eq.
      - autorewrite with world_fields. exact Hs. }
  rewrite (run_jobs_cleared_removal id _ (closed c)).
  2:{ cbn [w_conns]. apply lookup_insert_eq. }
  2:{ cbn [w_jobs]. destruct w; cbn in Hj |- *. rewrite Hj. cbn [app].
      destruct (_ && _ && _); repeat constructor. }
  destruct w as [db pl socks conns out jobs]; cbn in *.
  split; [done|]. split; [apply lookup_insert_eq|]. split; [done|].
  split; [intros id' Hne; rewrite !lookup_insert_ne by congruence; reflexivity|].
  split; [done|]. split; [done|].
  eexists. split; [reflexivity|].
  destruct (Z.eqb _ 0); [constructor|].
  unfold broadcast_frames. rewrite lookup_insert_eq.
  eapply Forall_impl; [apply broadcast_step_frames|].
  intros o (id' & c' & H1 & H2 & H3 & H4). apply in_remove in H2 as [H2 H5].
  rewrite lookup_insert_ne in H3 by congruence.
  exists id', c'. auto.
Qed.

Lemma getOrCreateGame_spec (fresh : GameRec) (g : string) (w : World) :
  getOrCreateGame fresh g w =
  (match w_db w !! g with Some _ => w | None => set_db w (<[g := fresh]> (w_db w)) end, Ok tt).
Proof. unfold getOrCreateGame, db_getGame, db_setGame. unfold_M. by destruct (w_db w !! g). Qed.

Lemma replay_frames_gameId (ws : Conn) (cnt : Z) (conns : gmap nat Conn) (ids : list nat) :
  Forall (fun o => exists id' ev, o = OutWs id' (gameId ws) ev) (replay_frames ws cnt conns ids).
Proof.
  induction ids as [|x ids IH]; cbn; [constructor|].
  apply Forall_app. split; [|exact IH].
  destruct (conns !! x) as [cl|]; [|constructor].
  destruct (Z.eqb (readyState cl) 1); [|constructor].
  destruct (Z.eqb (readyState ws) 1); repeat constructor. eauto.
Qed.

(** A connection bound to game [g1] that sends a message for another game
    [g2] (the joining step of [handleInitialRequest]): it is added to the
    live set of [g2], the live set of [g1] is left as it was, the
    connections keep their fields (so its [gameId] is still [g1]), and
    every frame the step sends (the replayed [playerJoined] events of [g2])
    carries the game id [g1]. *)
Theorem second_game_keeps_first_binding
    (fresh : GameRec) (id : nat) (g1 g2 : string) (w : World) (c : Conn) :
  w_conns w !! id = Some c -> gameId c = Some g1 -> str_truthy (Some g1) = true -> g2 <> g1 ->
  w_sockets (fst (join_registry fresh id g2 w)) !! g1 = w_sockets w !! g1 /\
  w_conns (fst (join_registry fresh id g2 w)) = w_conns w /\
  (exists ids, w_sockets (fst (join_registry fresh id g2 w)) !! g2 = Some ids /\ id ∈ ids) /\
  Forall (fun o => exists id' ev, o = OutWs id' (Some g1) ev)
    (drop (length (w_out w)) (w_out (fst (join_registry fresh id g2 w)))).
Proof.
  intros Hc Hg Ht Hne. unfold join_registry.
  erewrite bind_ok; [|by apply conn_ok].
  rewrite Hg, Ht. cbn [negb].
  erewrite bind_ok; [|reflexivity].
  erewrite bind_ok; [|reflexivity].
  destruct (w_sockets w !! g2) as [ids|] eqn:Hs.
  - destruct (bool_decide (id ∈ ids)) eqn:Hin.
    + apply bool_decide_eq_true in Hin. cbn [fst].
      split; [done|]. split; [done|]. split; [by exists ids|].
      rewrite drop_all. constructor.
    + erewrite bind_ok; [|by apply conn_ok].
      erewrite bind_ok; [|apply forEach_replay_one].
      unfold_M. autorewrite with world_fields.
      split; [by rewrite lookup_insert_ne|]. split; [done|]. split.
      * exists (ids ++ [id]). split; [apply lookup_insert_eq|].
        apply elem_of_app. right. by apply list_elem_of_singleton.
      * rewrite drop_app_length. rewrite <- Hg. apply replay_frames_gameId.
  - erewrite bind_ok; [|reflexivity].
    rewrite getOrCreateGame_spec. cbn [fst].
    destruct (w_db _ !! g2); autorewrite with world_fields;
      (split; [by rewrite lookup_insert_ne|]); (split; [done|]);
      (split; [exists [id]; split; [apply lookup_insert_eq|by apply list_elem_of_singleton]|]);
      rewrite drop_all; constructor.
Qed.

Lemma on_message_no_payload (fresh : GameRec) (hpc : nat -> Payload -> M unit)
    (other : nat -> InMsg -> M unit) (id : nat) (msg : InMsg) (g : string) (w : World) :
  in_gameId msg = Some g -> str_truthy (Some g) = true -> in_payload msg = None ->
  on_message fresh hpc other id msg w = run_async (join_registry fresh id g) w.
Proof.
  intros Hg Ht Hp. unfold on_message, run_async, handleInitialRequest, implicit_change.
  rewrite Hg, Ht, Hp. unfold mbind, M_bind, throw.
  destruct (join_registry fresh id g w) as [w1 [u|e]]; reflexivity.
Qed.

Lemma join_registry_db (fresh : GameRec) (id : nat) (g g' : string) (w : World) (gr : GameRec) :
  w_db w !! g' = Some gr -> w_db (fst (join_registry fresh id g w)) !! g' = Some gr.
Proof.
  intros H. unfold join_registry.
  destruct (w_conns w !! id) as [c|] eqn:Hc.
  2:{ erewrite bind_thrown; [exact H|]. unfold conn. unfold_M. by rewrite Hc. }
  erewrite bind_ok; [|by apply conn_ok].
  match goal with |- context [ ((?m ≫= ?k) w) ] =>
    assert (Hfirst : exists w1, m w = (w1, Ok tt) /\ w_db w1 = w_db w) end.
  { destruct (negb _); eexists; split; reflexivity. }
  destruct Hfirst as (w1 & Hm & Hd). erewrite bind_ok; [|exact Hm].
  erewrite bind_ok; [|reflexivity].
  destruct (w_sockets w1 !! g) as [ids|].
  - destruct (bool_decide (id ∈ ids)); [cbn; by rewrite Hd|].
    destruct (w_conns w1 !! id) as [c1|] eqn:Hc1.
    + erewrite bind_ok; [|by apply conn_ok].
      erewrite bind_ok; [|apply forEach_replay_one].
      unfold_M. destruct w1; cbn in *. by rewrite Hd.
    + erewrite bind_thrown; [cbn; by rewrite Hd|]. unfold conn. unfold_M. by rewrite Hc1.
  - erewrite bind_ok; [|reflexivity].
    rewrite getOrCreateGame_spec. cbn [fst].
    unfold set_sockets, set_db. cbn [w_db]. rewrite Hd.
    destruct (w_db w !! g) eqn:E; cbn [w_db]; [exact H|].
    destruct (decide (g = g')) as [->|Hne]; [congruence|].
    by rewrite lookup_insert_ne.
Qed.

(** The [endTurn] fetcher sends no payload: [handleInitialRequest] joins
    the connection to the game, then throws when it destructures the
    missing payload, so [handleRequest] never runs. The game record is left
    as it was and the turn is not ended. *)
Theorem endTurn_fetcher_leaves_game
    (fresh : GameRec) (hpc : nat -> Payload -> M unit) (other : nat -> InMsg -> M unit)
    (id : nat) (g : string) (w : World) (gr : GameRec) :
  str_truthy (Some g) = true -> w_db w !! g = Some gr ->
  w_db (fst (on_message fresh hpc other id (fetch_endTurn (Some g)) w)) !! g = Some gr.
Proof.
  intros Ht H. rewrite (on_message_no_payload fresh hpc other id (fetch_endTurn (Some g)) g w eq_refl Ht eq_refl).
  unfold run_async. pose proof (join_registry_db fresh id g g w gr H) as Hj.
  destruct (join_registry fresh id g w). exact Hj.
Qed.

Lemma join_registry_member (fresh : GameRec) (id : nat) (g : string) (w : World) (c : Conn)
    (ids : list nat) :
  w_conns w !! id = Some c -> str_truthy (gameId c) = true ->
  w_sockets w !! g = Some ids -> id ∈ ids ->
  join_registry fresh id g w = (w, Ok tt).
Proof.
  intros Hc Ht Hs Hin. unfold join_registry.
  erewrite bind_ok; [|by apply conn_ok]. rewrite Ht. cbn [negb].
  erewrite bind_ok; [|reflexivity].
  erewrite bind_ok; [|reflexivity].
  rewrite Hs. rewrite bool_decide_eq_true_2 by done. reflexivity.
Qed.

Lemma implicit_change_no_anchor (hpc : nat -> Payload -> M unit) (id : nat) (msg : InMsg)
    (p : Payload) (w : World) (c : Conn) :
  in_payload msg = Some p -> w_conns w !! id = Some c ->
  p_token p = None -> p_facebookId p = None -> p_playerName p = None ->
  implicit_change hpc id msg w = (w, Ok tt).
Proof.
  intros Hp Hc H1 H2 H3. unfold implicit_change. rewrite Hp.
  erewrite bind_ok; [|by apply conn_ok]. rewrite H1, H2, H3.
  cbn. by rewrite andb_false_r.
Qed.

(** The [giveClue] and [guess] fetchers, sent from a connection already in
    the live set of its game, run exactly the server's [giveClue] and
    [makeGuess] handlers with the word and number they carry. *)
Theorem fetched_clue_and_guess_run_handlers
    (fresh : GameRec) (hpc : nat -> Payload -> M unit) (other : nat -> InMsg -> M unit)
    (id : nat) (g : string) (ids : list nat) (w : World) (c : Conn) (wd : string) (n : Z) :
  w_conns w !! id = Some c -> str_truthy (gameId c) = true -> str_truthy (Some g) = true ->
  w_sockets w !! g = Some ids -> id ∈ ids ->
  on_message fresh hpc other id (fetch_giveClue (Some g) (Some wd) (Some n)) w
    = run_async (giveClue c wd n) w /\
  on_message fresh hpc other id (fetch_guess (Some g) (Some wd)) w
    = run_async (makeGuess c wd) w.
Proof.
  intros Hc Htc Ht Hs Hin.
  assert (Hhir : forall msg p, in_gameId msg = Some g -> in_payload msg = Some p ->
            p_token p = None -> p_facebookId p = None -> p_playerName p = None ->
            handleInitialRequest fresh hpc id msg w = (w, Ok tt)).
  { intros msg p Hg Hp H1 H2 H3. unfold handleInitialRequest. rewrite Hg, Ht.
    erewrite bind_ok; [|by eapply join_registry_member].
    by eapply implicit_change_no_anchor. }
  split.
  - unfold on_message. unfold run_async at 1.
    erewrite bind_ok; [|by apply (Hhir (fetch_giveClue (Some g) (Some wd) (Some n)) _ eq_refl eq_refl)].
    unfold handleRequest. cbn [in_gameId fetch_giveClue fetch_guess]. rewrite Ht. cbn.
    unfold run_async. erewrite bind_ok; [|by apply conn_ok].
    by destruct (giveClue c wd n w).
  - unfold on_message. unfold run_async at 1.
    erewrite bind_ok; [|by apply (Hhir (fetch_guess (Some g) (Some wd)) _ eq_refl eq_refl)].
    unfold handleRequest. cbn [in_gameId fetch_giveClue fetch_guess]. rewrite Ht. cbn.
    unfold run_async. erewrite bind_ok; [|by apply conn_ok].
    by destruct (makeGuess c wd w).
Qed.

(** [makeGuess] when the game has no turn record: the call throws before
    any write or send, and the state is left as it was. *)
Theorem guess_while_idle_rejected (ws : Conn) (g : string) (w : World) (gr : GameRec)
    (word : string) :
  gameId ws = Some g -> w_db w !! g = Some gr -> turn gr = None ->
  exists e, makeGuess ws word w = (w, Thrown e).
Proof.
  intros Hg H Ht. unfold makeGuess. rewrite Hg.
  erewrite bind_ok; [|by apply db_getTurn_ok]. rewrite Ht.
  eexists. reflexivity.
Qed.

Lemma giveClue_spec (ws : Conn) (g : string) (w : World) (gr : GameRec) (word : string) (n : Z) :
  gameId ws = Some g -> w_db w !! g = Some gr ->
  exists pushes,
    giveClue ws word n w =
    (set_out (set_db w (<[g := with_turn gr (Some (mkTurn (teamId ws) word n (n + 1)))]> (w_db w)))
       (w_out w ++ pushes ++
        broadcast_frames (w_sockets w) (w_conns w) g
          (EvClueGiven (if js_strict_eq (teamId ws) (JStr "one") then "playerTwo" else "playerOne")
             n word)), Ok tt) /\
    Forall (fun o => exists toks ti bo, o = OutPush toks ti bo) pushes.
Proof.
  intros Hg H. unfold giveClue. rewrite Hg.
  erewrite bind_ok; [|by apply db_getTurnsLeft_ok].
  unfold db_setTurn.
  erewrite bind_ok; [|by apply update_game_ok].
  erewrite bind_ok;
    [|apply db_getTurnsLeft_ok; autorewrite with world_fields; apply lookup_insert_eq].
  cbn [turnsLeft with_turn]. rewrite Z.eqb_refl.
  erewrite bind_ok; [|reflexivity].
  erewrite bind_ok;
    [|apply db_getTokensOnTeam_ok; autorewrite with world_fields; apply lookup_insert_eq].
  erewrite bind_ok; [|apply iOSNotify_spec].
  cbn [broadcast_ws]. rewrite broadcast_spec.
  destruct (js_strict_eq (teamId ws) (JStr "one")); cbn [Z.eqb Pos.eqb];
    (eexists; split;
     [autorewrite with world_fields; rewrite app_assoc; reflexivity
     |destruct (map snd _); repeat constructor; eauto]).
Qed.

Lemma broadcast_frames_event (socks : gmap string (list nat)) (conns : gmap nat Conn)
    (g : string) (ev : Event) :
  Forall (fun o => exists id', o = OutWs id' (Some g) ev) (broadcast_frames socks conns g ev).
Proof.
  unfold broadcast_frames. destruct (socks !! g) as [ids|]; [|constructor].
  eapply Forall_impl; [apply broadcast_step_frames|].
  intros o (id' & _ & -> & _). eauto.
Qed.

(** [giveClue] with a numeric team id (1 or 2, as stored on
    connections): every [clueGiven] event it broadcasts names ["playerOne"]
    as the guessing side, whichever team gave the clue. *)
Theorem clueGiven_always_names_playerOne (ws : Conn) (g : string) (w : World) (gr : GameRec)
    (T : Team) (word : string) (n : Z) :
  gameId ws = Some g -> w_db w !! g = Some gr -> team_of_id (teamId ws) = Some T ->
  exists extra,
    w_out (fst (giveClue ws word n w)) = w_out w ++ extra /\
    Forall (fun o => match o with
                     | OutWs _ _ ev => ev = EvClueGiven "playerOne" n word
                     | OutPush _ _ _ => True
                     end) extra.
Proof.
  intros Hg H HT.
  destruct (giveClue_spec ws g w gr word n Hg H) as [pushes [Hgc Hp]].
  assert (Hone : js_strict_eq (teamId ws) (JStr "one") = false).
  { destruct (teamId ws); [discriminate|reflexivity|discriminate]. }
  rewrite Hgc, Hone. cbn [fst]. autorewrite with world_fields.
  eexists. split; [reflexivity|].
  apply Forall_app. split.
  - eapply Forall_impl; [exact Hp|]. intros o (toks & ti & bo & ->). exact I.
  - eapply Forall_impl; [apply broadcast_frames_event|]. intros o [id' ->]. reflexivity.
Qed.

(** After [giveClue] by a connection of numeric team [t] with a non-empty
    word, [maybeSendCurrentClue] replays to an open connection of the game a
    [clueGiven] event naming the side by the clue giver's team (["playerOne"]
    for team 1, else ["playerTwo"]) and carrying [guessesLeft], one more than
    the number announced live. *)
Theorem replayed_clue_differs_from_live (ws c : Conn) (g : string) (w : World) (gr : GameRec)
    (t : Z) (word : string) (n : Z) :
  gameId ws = Some g -> w_db w !! g = Some gr -> teamId ws = JNum t -> word <> "" ->
  gameId c = Some g -> readyState c = 1 ->
  maybeSendCurrentClue c (fst (giveClue ws word n w)) =
  (set_out (fst (giveClue ws word n w))
     (w_out (fst (giveClue ws word n w)) ++
      [OutWs (ws_id c) (Some g)
         (EvClueGiven (if Z.eqb t 1 then "playerOne" else "playerTwo") (n + 1) word)]),
   Ok tt).
Proof.
  intros Hg H Ht Hw Hcg Hr.
  destruct (giveClue_spec ws g w gr word n Hg H) as [pushes [Hgc _]].
  rewrite Hgc. cbn [fst]. unfold maybeSendCurrentClue. rewrite Hcg.
  erewrite bind_ok;
    [|apply db_getTurn_ok; autorewrite with world_fields; apply lookup_insert_eq].
  cbn [with_turn turn clueWord clueGiverTeamId guessesLeft].
  assert (Hs : str_truthy (Some word) = true).
  { cbn. destruct (String.eqb word "") eqn:E; [|reflexivity].
    apply String.eqb_eq in E. contradiction. }
  rewrite Hs, Ht. cbn [negb js_strict_eq].
  rewrite send_spec, Hr, Hcg. reflexivity.
Qed.

Lemma close_leaves_live_set_witness :
  w_sockets (fst (close_event 0 (worldABCD gameABCD connAdaNoAnchor connGrace))) !! "ABCD"
    = Some [1%nat] /\
  w_db (fst (close_event 0 (worldABCD gameABCD connAdaNoAnchor connGrace)))
    = w_db (worldABCD gameABCD connAdaNoAnchor connGrace) /\
  w_out (fst (close_event 0 (worldABCD gameABCD connAdaNoAnchor connGrace)))
    = [OutWs 1 (Some "ABCD") (EvPlayerLeft 1 (Some "Ada") (Some 7) (JNum 1))].
Proof.
  destruct (close_leaves_live_set 0 "ABCD" [0%nat; 1%nat]
              (worldABCD gameABCD connAdaNoAnchor connGrace) connAdaNoAnchor)
    as (H1 & _ & _ & _ & H2 & _);
    [vm_compute; reflexivity|reflexivity|reflexivity|reflexivity|vm_compute; reflexivity
    |reflexivity|].
  split; [rewrite H1; vm_compute; reflexivity|]. split; [exact H2|].
  vm_compute. reflexivity.
Defined.

Lemma second_game_keeps_first_binding_witness :
  w_sockets (fst (join_registry gameABCD 0 "WXYZ" worldTwoGames)) !! "ABCD"
    = Some [0%nat; 1%nat] /\
  Forall (fun o => exists id' ev, o = OutWs id' (Some "ABCD") ev)
    (drop (length (w_out worldTwoGames)) (w_out (fst (join_registry gameABCD 0 "WXYZ" worldTwoGames)))) /\
  drop (length (w_out worldTwoGames)) (w_out (fst (join_registry gameABCD 0 "WXYZ" worldTwoGames)))
    = [OutWs 0 (Some "ABCD") (EvPlayerJoined 1 (Some "Grace") (Some 8) None (JNum 2))].
Proof.
  destruct (second_game_keeps_first_binding gameABCD 0 "ABCD" "WXYZ" worldTwoGames connAda)
    as (H1 & _ & _ & H2);
    [vm_compute; reflexivity|reflexivity|reflexivity|discriminate|].
  split; [rewrite H1; vm_compute; reflexivity|]. split; [exact H2|].
  vm_compute. reflexivity.
Defined.

Lemma endTurn_fetcher_leaves_game_witness :
  w_db (fst (on_message gameABCD (fun _ _ => mret tt) (fun _ _ => mret tt) 0
               (fetch_endTurn (Some "ABCD")) (worldABCD gameABCD connAda connGrace)))
    !! "ABCD" = Some gameABCD.
Proof.
  apply (endTurn_fetcher_leaves_game gameABCD (fun _ _ => mret tt) (fun _ _ => mret tt) 0
           "ABCD" (worldABCD gameABCD connAda connGrace) gameABCD);
    [reflexivity|vm_compute; reflexivity].
Defined.

Lemma fetched_clue_and_guess_run_handlers_witness :
  on_message gameABCD (fun _ _ => mret tt) (fun _ _ => mret tt) 0
    (fetch_giveClue (Some "ABCD") (Some "robot") (Some 2))
    (worldABCD gameABCD connAda connGrace)
  = run_async (giveClue connAda "robot" 2) (worldABCD gameABCD connAda connGrace).
Proof.
  apply (fetched_clue_and_guess_run_handlers gameABCD (fun _ _ => mret tt) (fun _ _ => mret tt)
           0 "ABCD" [0%nat; 1%nat] (worldABCD gameABCD connAda connGrace) connAda "robot" 2);
    [vm_compute; reflexivity|reflexivity|reflexivity|vm_compute; reflexivity
    |apply list_elem_of_In; left; reflexivity].
Defined.

Lemma guess_while_idle_rejected_witness :
  exists e, makeGuess connAda "robot" (worldABCD gameABCD connAda connGrace)
            = (worldABCD gameABCD connAda connGrace, Thrown e).
Proof.
  apply (guess_while_idle_rejected connAda "ABCD" (worldABCD gameABCD connAda connGrace)
           gameABCD "robot"); [reflexivity|vm_compute; reflexivity|reflexivity].
Defined.

Lemma clueGiven_always_names_playerOne_witness :
  exists extra,
    w_out (fst (giveClue connAda "robot" 2 (worldABCD gameABCD connAda connGrace)))
      = w_out (worldABCD gameABCD connAda connGrace) ++ extra /\
    Forall (fun o => match o with
                     | OutWs _ _ ev => ev = EvClueGiven "playerOne" 2 "robot"
                     | OutPush _ _ _ => True
                     end) extra.
Proof.
  eapply (clueGiven_always_names_playerOne connAda "ABCD" (worldABCD gameABCD connAda connGrace)
           gameABCD); [reflexivity|vm_compute; reflexivity|reflexivity].
Defined.

Lemma replayed_clue_differs_from_live_witness :
  maybeSendCurrentClue connGrace
    (fst (giveClue connAda "robot" 2 (worldABCD gameABCD connAda connGrace))) =
  (set_out (fst (giveClue connAda "robot" 2 (worldABCD gameABCD connAda connGrace)))
     (w_out (fst (giveClue connAda "robot" 2 (worldABCD gameABCD connAda connGrace))) ++
      [OutWs 1 (Some "ABCD") (EvClueGiven "playerOne" 3 "robot")]), Ok tt).
Proof.
  apply (replayed_clue_differs_from_live connAda connGrace "ABCD"
           (worldABCD gameABCD connAda connGrace) gameABCD 1 "robot" 2);
    [reflexivity|vm_compute; reflexivity|reflexivity|discriminate|reflexivity|reflexivity].
Defined.
